(** * op_elo_backend: rating ledger, roster synchronizer and image backfiller

    A shallow embedding of the server ([index.js]), of the scraper
    ([scraper.js]) and of the database tools ([database_tools.js]).

    The file src/scraper.js holds the scraper (lines 1-228) followed by two
    versions of the server; the model follows the last one (lines 455-781),
    the one the line numbers of the properties refer to. The file
    src/index.js holds the first version of the server (lines 1-236, here
    [Legacy]) followed by the database tools (lines 237-306).

    Conventions of the model.
    - A JavaScript number that holds an integer is a [Z]. The handlers only
      add and compare such numbers, which is exact below 2^53, and the
      columns they are stored in are INTEGER.
    - A JavaScript string is a [string] whose characters are its code units
      (code units below 256).
    - The PostgreSQL pool is explicit state ([pool]): the [characters] table
      keyed by its primary key, the identifiers already drawn by
      [gen_random_uuid()], the statements the engine refuses, and the
      statements issued so far.
    - The wiki is a function from a character's page to what fetching and
      parsing that page yields.
    - [console.log] lines that announce how an entity was classified, the
      [setTimeout] waits and the page fetches are collected in a trace. *)

From Stdlib Require Import ZArith Lia Ascii String.
From stdpp Require Import gmap strings list fin_maps sorting relations.

Open Scope string_scope.
Open Scope list_scope.

(** ** JavaScript helpers *)

Module JS.

(** White space removed by [String.prototype.trim] and skipped by
    [parseInt], among code units below 256: TAB, LF, VT, FF, CR, SP, NBSP. *)
Definition is_white_space (c : ascii) : bool :=
  let n := nat_of_ascii c in
  (((9 <=? n) && (n <=? 13)) || (n =? 32) || (n =? 160))%nat.

Fixpoint trimStart (s : string) : string :=
  match s with
  | String c s' => if is_white_space c then trimStart s' else s
  | EmptyString => EmptyString
  end.

Fixpoint trimEnd (s : string) : string :=
  match s with
  | String c s' =>
      match trimEnd s' with
      | EmptyString => if is_white_space c then EmptyString else String c EmptyString
      | t => String c t
      end
  | EmptyString => EmptyString
  end.

Definition trim (s : string) : string := trimEnd (trimStart s).

(** Truthiness of a string: only the empty string is falsy. *)
Definition truthy_string (s : string) : bool := negb (s =? "").

(** [Array.prototype.includes] and [Array.prototype.join] on strings. *)
Definition includes (l : list string) (x : string) : bool :=
  existsb (String.eqb x) l.

Fixpoint join (sep : string) (l : list string) : string :=
  match l with
  | [] => ""
  | [x] => x
  | x :: l' => x +:+ sep +:+ join sep l'
  end.

(** [a || b] on values that are a string or undefined/null. *)
Definition or_string (a b : option string) : option string :=
  match a with
  | Some s => if truthy_string s then a else b
  | None => b
  end.

(** Digit value of a code unit in the given radix (10 or 16). *)
Definition digit_value (radix : Z) (c : ascii) : option Z :=
  let n := Z.of_nat (nat_of_ascii c) in
  let v := (if (48 <=? n) && (n <=? 57) then Some (n - 48)
            else if (97 <=? n) && (n <=? 122) then Some (n - 87)
            else if (65 <=? n) && (n <=? 90) then Some (n - 55)
            else None)%Z in
  match v with
  | Some d => if (d <? radix)%Z then Some d else None
  | None => None
  end.

(** The longest prefix of digits, read left to right; [None] when the
    prefix is empty. *)
Fixpoint parse_digits (radix : Z) (acc : option Z) (s : string) : option Z :=
  match s with
  | String c s' =>
      match digit_value radix c with
      | Some d => parse_digits radix (Some (match acc with Some a => a * radix + d | None => d end)%Z) s'
      | None => acc
      end
  | EmptyString => acc
  end.

(** [parseInt(x)] with no radix argument; [None] is NaN. An undefined
    argument is first turned into the string "undefined". *)
Definition parseInt (x : option string) : option Z :=
  let input := match x with Some s => s | None => "undefined" end in
  let s := trimStart input in
  let '(sign, s) :=
    match s with
    | String "-" s' => ((-1)%Z, s')
    | String "+" s' => (1%Z, s')
    | _ => (1%Z, s)
    end in
  let '(radix, s) :=
    match s with
    | String "0" (String "x" s') => (16%Z, s')
    | String "0" (String "X" s') => (16%Z, s')
    | _ => (10%Z, s)
    end in
  match parse_digits radix None s with
  | Some n => Some (sign * n)%Z
  | None => None
  end.

(** [x || d] on a number: NaN and 0 are falsy. *)
Definition or_number (x : option Z) (d : Z) : Z :=
  match x with
  | Some n => if (n =? 0)%Z then d else n
  | None => d
  end.

End JS.

(** ** Values of a request body *)

(** A field value of a parsed JSON body. [JNumber n] is a JSON number (an
    integer, as the columns are);
    [JNotNumeric] stands for a value on which [isNaN] is true (an object, a
    string that is not a numeric literal). Values that are not numbers but
    that [isNaN] coerces to one (null, booleans, numeric strings) are outside
    the model. A field that is absent reads as undefined ([None]). *)
Inductive jsval :=
| JNumber (n : Z)
| JNotNumeric.

(** The number a validated field holds. *)
Definition number_of (v : option jsval) : Z :=
  match v with Some (JNumber n) => n | _ => 0 end.

(** ** The characters table and the connection pool *)

(** A row of the [characters] table without its [id]; the columns are those
    of the INSERT of [scrapeAndSaveCharacters]. *)
Record character := mkCharacter {
  first_name : string;
  last_name : string;
  title : string;
  image_path : option string;
  elo : Z;
  rank : Z;
  recent_change : Z;
  wins : Z;
  losses : Z
}.

(** The statements the program sends with [pool.query]. *)
Inductive statement :=
| CreateCharactersTable
    (* CREATE TABLE IF NOT EXISTS characters (...) *)
| DeleteCharacters
    (* DELETE FROM characters *)
| InsertCharacter (c : character)
    (* INSERT INTO characters (first_name, ..., losses) VALUES ($1, ..., $9) *)
| UpdateElo (wins_change losses_change elo_change last_change : Z) (id : string)
    (* UPDATE characters SET wins = wins + $1, losses = losses + $2,
       elo = elo + $3, recent_change = $4 WHERE id = $5 RETURNING * *)
| UpdateSet (wins' losses' elo' recent_change' : option jsval) (id : string)
    (* UPDATE characters SET wins = $1, ... WHERE id = $n RETURNING *,
       built from the fields provided (the first version of the handler) *)
| UpdateImagePath (imageUrl : string) (id : string)
    (* UPDATE characters SET image_path = $1 WHERE id = $2 *)
| SelectCharactersByFirstName.
    (* SELECT id, first_name, image_path FROM characters ORDER BY first_name *)

(** The pool: the table keyed by [id], the identifiers [gen_random_uuid()]
    has drawn so far (it never draws one twice), the statements the engine
    raises an error on (a constraint, a malformed key, a lost connection),
    and the statements issued. *)
Record pool := mkPool {
  characters : gmap string character;
  issued : gset string;
  refuses : statement -> bool;
  log : list statement
}.

Inductive query_result :=
| QueryError (message : string)
| QueryRows (rows : list (string * character)).

Definition with_characters (t : gmap string character) (p : pool) : pool :=
  {| characters := t; issued := issued p; refuses := refuses p; log := log p |}.

Definition logged (q : statement) (p : pool) : pool :=
  {| characters := characters p; issued := issued p; refuses := refuses p;
     log := (log p ++ [q])%list |}.

Definition gen_random_uuid (p : pool) : string := fresh (issued p).

Definition add_elo (wins_change losses_change elo_change last_change : Z)
    (c : character) : character :=
  {| first_name := first_name c; last_name := last_name c; title := title c;
     image_path := image_path c;
     elo := elo c + elo_change;
     rank := rank c;
     recent_change := last_change;
     wins := wins c + wins_change;
     losses := losses c + losses_change |}.

(** A column that [UpdateSet] names takes the value given; the others keep
    theirs. *)
Definition assigned (old : Z) (v : option jsval) : Z :=
  match v with Some _ => number_of v | None => old end.

Definition set_columns (wins' losses' elo' recent_change' : option jsval)
    (c : character) : character :=
  {| first_name := first_name c; last_name := last_name c; title := title c;
     image_path := image_path c;
     elo := assigned (elo c) elo';
     rank := rank c;
     recent_change := assigned (recent_change c) recent_change';
     wins := assigned (wins c) wins';
     losses := assigned (losses c) losses' |}.

Definition set_image_path (imageUrl : string) (c : character) : character :=
  {| first_name := first_name c; last_name := last_name c; title := title c;
     image_path := Some imageUrl;
     elo := elo c; rank := rank c; recent_change := recent_change c;
     wins := wins c; losses := losses c |}.

(** ORDER BY first_name, as the order of the code units. *)
Definition by_first_name (r1 r2 : string * character) : Prop :=
  Is_true (String.leb (first_name r1.2) (first_name r2.2)).

#[global] Instance by_first_name_dec r1 r2 : Decision (by_first_name r1 r2).
Proof. unfold by_first_name. apply _. Defined.

(** The rows an UPDATE ... WHERE id = $n RETURNING * gives back. *)
Definition returning (f : character -> character) (id : string)
    (t : gmap string character) : list (string * character) :=
  match t !! id with
  | Some c => [(id, f c)]
  | None => []
  end.

(** What a statement the engine accepts does: the rows it returns and the
    pool after it. *)
Definition run_statement (q : statement) (p : pool) : list (string * character) * pool :=
  match q with
  | CreateCharactersTable => ([], p)
  | DeleteCharacters => ([], with_characters ∅ p)
  | InsertCharacter c =>
      let id := gen_random_uuid p in
      ([], {| characters := <[id := c]> (characters p);
              issued := {[id]} ∪ issued p;
              refuses := refuses p; log := log p |})
  | UpdateElo w l e r id =>
      (returning (add_elo w l e r) id (characters p),
       with_characters (alter (add_elo w l e r) id (characters p)) p)
  | UpdateSet w l e r id =>
      (returning (set_columns w l e r) id (characters p),
       with_characters (alter (set_columns w l e r) id (characters p)) p)
  | UpdateImagePath imageUrl id =>
      ([], with_characters (alter (set_image_path imageUrl) id (characters p)) p)
  | SelectCharactersByFirstName =>
      (merge_sort by_first_name (map_to_list (characters p)), p)
  end.

(** The parameters of a statement fit the INTEGER columns they are bound
    to. *)
Definition integer_parameter (v : option jsval) : bool :=
  match v with Some JNotNumeric => false | _ => true end.

Definition well_typed (q : statement) : bool :=
  match q with
  | UpdateSet w l e r _ =>
      integer_parameter w && integer_parameter l
      && integer_parameter e && integer_parameter r
  | _ => true
  end.

(** [pool.query]: a statement is one atomic operation of the engine; a
    refused statement changes nothing. *)
Definition pool_query (q : statement) (p : pool) : query_result * pool :=
  let p := logged q p in
  if refuses p q || negb (well_typed q) then (QueryError "query failed", p)
  else let '(rows, p') := run_statement q p in (QueryRows rows, p').

(** ** Requests and responses *)

(** A parsed body: its own properties in the order of [Object.keys]. *)
Definition object := list (string * jsval).

Fixpoint get (o : object) (k : string) : option jsval :=
  match o with
  | (k', v) :: o' => if String.eqb k' k then Some v else get o' k
  | [] => None
  end.

Definition keys (o : object) : list string := map fst o.

Definition is_undefined (v : option jsval) : bool :=
  match v with None => true | Some _ => false end.

Definition isNaN (v : option jsval) : bool :=
  match v with Some (JNumber _) => false | _ => true end.

(** The summary of a backfill, without its timestamp. *)
Record summary := mkSummary {
  total : Z;
  updated : Z;
  skipped : Z;
  failed : Z
}.

(** The JSON values the handlers answer with. *)
Inductive json :=
| JsonString (s : string)
| JsonStrings (l : list string)
| JsonCharacter (id : string) (c : character)
| JsonSummary (s : summary).

Record response := mkResponse {
  status : Z;
  payload : list (string * json)
}.

(** A JavaScript exception or the value returned. *)
Inductive result (A : Type) :=
| Throw (message : string)
| Return (a : A).
Arguments Throw {A} message.
Arguments Return {A} a.

(** ** The wiki and the trace *)

(** The first [img.pi-image-thumbnail] of a page, by its two attributes. *)
Record img := mkImg {
  src : option string;
  data_src : option string
}.

(** What [axios.get] and [cheerio.load] yield for a character's page: an
    error of either, or the page with its first thumbnail if it has one. *)
Inductive page_result :=
| PageError (message : string)
| Page (thumbnail : option img).

Inductive verdict := Updated | Skipped | Failed.

Inductive event :=
| Sleep (ms : Z)                              (* setTimeout(resolve, ms) *)
| Fetch (characterName : string)              (* axios.get of the page *)
| Console (v : verdict) (characterName : string).
    (* "Updated image for ..", "Skipped .. - no image found", "Failed to update .." *)

(** A row of a table of the listing page, as the scraper reads it: for
    each [td] of the row the text of its first link (empty when it has no
    link), and the first [img] of the row if it has one. *)
Record table_row := mkRow {
  cells : list string;
  image : option img
}.

(** [s.replace(/\s+/g, ' ')]: every run of white space becomes one space;
    [in_run] tells that the previous code unit was white space. *)
Fixpoint collapse_spaces (in_run : bool) (s : string) : string :=
  match s with
  | String c s' =>
      if JS.is_white_space c
      then if in_run then collapse_spaces true s'
           else String " " (collapse_spaces true s')
      else String c (collapse_spaces false s')
  | EmptyString => EmptyString
  end.

(** ** src/scraper.js *)

Module Scraper.

(** The body of the loop over the cells for one cell: the clean name, when
    the text of the link qualifies. *)
Definition name_of_cell (text : string) : option string :=
  let characterName := JS.trim text in
  if JS.truthy_string characterName && negb (characterName =? "Name")
     && (1 <? String.length characterName)%nat
  then
    (* Clean up the character name *)
    let cleanName := JS.trim (collapse_spaces false characterName) in
    if JS.truthy_string cleanName && (1 <? String.length cleanName)%nat
    then Some cleanName else None
  else None.

(** The loop over the cells, up to the [break]. *)
Fixpoint first_name_of (cells : list string) : option string :=
  match cells with
  | [] => None
  | text :: rest =>
      match name_of_cell text with
      | Some cleanName => Some cleanName
      | None => first_name_of rest
      end
  end.

(** The callback of [$('table tr').each]: the character a row gives, if
    any. *)
Definition scrape_row (row : table_row) : option character :=
  if (2 <=? length (cells row))%nat then
    match first_name_of (take 5 (cells row)) with
    | Some cleanName =>
        Some {| first_name := cleanName;
                last_name := "";
                title := "";
                image_path :=
                  match image row with
                  | Some imgElement => JS.or_string (src imgElement) (data_src imgElement)
                  | None => None
                  end;
                elo := 1000;
                rank := 1000;
                recent_change := 0;
                wins := 0;
                losses := 0 |}
    | None => None
    end
  else None.

(** [scrapeOnePieceCharacters()]; [listing] is what [axios.get] and
    [cheerio.load] give for the listing page: an error, or its rows. *)
Definition scrapeOnePieceCharacters (listing : result (list table_row))
    : result (list character) :=
  match listing with
  | Throw message => Throw message
  | Return rows => Return (omap scrape_row rows)
  end.

(** [scrapeAndSaveCharacters]: its loop over the scraped characters. *)
Fixpoint insert_characters (characters : list character) (p : pool)
    : result unit * pool :=
  match characters with
  | [] => (Return tt, p)
  | character :: rest =>
      match pool_query (InsertCharacter character) p with
      | (QueryError message, p') => (Throw message, p')
      | (QueryRows _, p') => insert_characters rest p'
      end
  end.

(** [scrapeAndSaveCharacters(pool)]; [scraped] is what
    [scrapeOnePieceCharacters()] gives. *)
Definition scrapeAndSaveCharacters (scraped : result (list character)) (p : pool)
    : result (list character) * pool :=
  match scraped with
  | Throw message => (Throw message, p)
  | Return characters =>
      if (length characters =? 0)%nat then (Return characters, p)
      else
        (* Clear existing characters *)
        match pool_query DeleteCharacters p with
        | (QueryError message, p') => (Throw message, p')
        | (QueryRows _, p') =>
            (* Insert new characters *)
            match insert_characters characters p' with
            | (Throw message, p'') => (Throw message, p'')
            | (Return _, p'') => (Return characters, p'')
            end
        end
  end.

(** [scrapeCharacterImage(characterName)]: the image URL or null. *)
Definition scrapeCharacterImage (wiki : string -> page_result)
    (characterName : string) : option string :=
  match wiki characterName with
  | Page (Some thumbnailImg) =>
      match JS.or_string (src thumbnailImg) (data_src thumbnailImg) with
      | Some imageUrl => if JS.truthy_string imageUrl then Some imageUrl else None
      | None => None
      end
  | Page None => None
  | PageError _ => None
  end.

(** The body of the loop of [updateCharacterImages] for one row: which
    counter it increments, the pool after it and what it does. *)
Definition update_image (wiki : string -> page_result) (delay : Z)
    (character : string * character) (p : pool) : verdict * pool * list event :=
  let name := first_name character.2 in
  let wait := if (delay >? 0)%Z then [Sleep delay] else [] in
  match scrapeCharacterImage wiki name with
  | Some imageUrl =>
      match pool_query (UpdateImagePath imageUrl character.1) p with
      | (QueryRows _, p') => (Updated, p', (wait ++ [Fetch name; Console Updated name])%list)
      | (QueryError _, p') => (Failed, p', (wait ++ [Fetch name; Console Failed name])%list)
      end
  | None => (Skipped, p, (wait ++ [Fetch name; Console Skipped name])%list)
  end.

Fixpoint update_images (wiki : string -> page_result) (delay : Z)
    (characters : list (string * character)) (updated skipped failed : Z)
    (p : pool) : Z * Z * Z * pool * list event :=
  match characters with
  | [] => (updated, skipped, failed, p, [])
  | character :: rest =>
      let '(v, p', events) := update_image wiki delay character p in
      let '(updated, skipped, failed) :=
        match v with
        | Updated => (updated + 1, skipped, failed)
        | Skipped => (updated, skipped + 1, failed)
        | Failed => (updated, skipped, failed + 1)
        end%Z in
      let '(updated, skipped, failed, p'', events') :=
        update_images wiki delay rest updated skipped failed p' in
      (updated, skipped, failed, p'', (events ++ events')%list)
  end.

(** [updateCharacterImages(pool, delay = 1000)]. *)
Definition updateCharacterImages (wiki : string -> page_result) (p : pool)
    (delay : option Z) : result summary * pool * list event :=
  let delay := default 1000%Z delay in
  match pool_query SelectCharactersByFirstName p with
  | (QueryError message, p') => (Throw message, p', [])
  | (QueryRows characters, p') =>
      let '(updated, skipped, failed, p'', events) :=
        update_images wiki delay characters 0 0 0 p' in
      (Return {| total := Z.of_nat (length characters);
                 updated := updated; skipped := skipped; failed := failed |},
       p'', events)
  end.

End Scraper.

(** ** src/database_tools.js *)

Module DatabaseTools.

Definition createCharactersTable (p : pool) : result unit * pool :=
  match pool_query CreateCharactersTable p with
  | (QueryError message, p') => (Throw message, p')
  | (QueryRows _, p') => (Return tt, p')
  end.

Definition populateCharacters (scraped : result (list character)) (p : pool)
    : result (list character) * pool :=
  match createCharactersTable p with
  | (Throw message, p') => (Throw message, p')
  | (Return _, p') => Scraper.scrapeAndSaveCharacters scraped p'
  end.

Definition updateCharacterImagesFromPages (wiki : string -> page_result)
    (p : pool) (delay : option Z) : result summary * pool * list event :=
  Scraper.updateCharacterImages wiki p (Some (default 1000%Z delay)).

End DatabaseTools.

(** ** src/index.js *)

Module Index.

(** *** ChangeAccumulator *)

Definition calculateChange (eloChange recentChange : Z) : Z :=
if (((eloChange >=? 0) && (recentChange >=? 0)) || ((eloChange <=? 0) && (recentChange <=? 0)))%Z
then (recentChange + eloChange)%Z
else eloChange.


(** *** RatingLedger *)

Definition allowedFields : list string :=
["wins_change"; "losses_change"; "elo_change"; "recent_change"].

Definition updateCharacterElo (id : string) (body : object) (p : pool)
  : response * pool :=
let wins_change := get body "wins_change" in
let losses_change := get body "losses_change" in
let elo_change := get body "elo_change" in
let recent_change := get body "recent_change" in
(* Validate character ID *)
if negb (JS.truthy_string id) || (JS.trim id =? "") then
  (mkResponse 400 [("error", JsonString "Invalid input");
                   ("message", JsonString "Character ID is required")], p)
(* Validate that all required fields are present *)
else if is_undefined wins_change || is_undefined losses_change
        || is_undefined elo_change || is_undefined recent_change then
  (mkResponse 400 [("error", JsonString "Missing required fields");
                   ("message", JsonString "All fields are required: wins_change, losses_change, elo_change, recent_change")], p)
(* Validate that the changes are numbers *)
else if isNaN wins_change || isNaN losses_change
        || isNaN elo_change || isNaN recent_change then
  (mkResponse 400 [("error", JsonString "Invalid input");
                   ("message", JsonString "All change values must be numbers")], p)
else
  (* Validate that no extra fields are provided *)
  let providedFields := keys body in
  let invalidFields :=
    List.filter (fun field => negb (JS.includes allowedFields field)) providedFields in
  if (0 <? length invalidFields)%nat then
    (mkResponse 400 [("error", JsonString "Invalid fields provided");
                     ("message", JsonString ("Only these fields are allowed: " +:+ JS.join ", " allowedFields));
                     ("invalidFields", JsonStrings invalidFields)], p)
  else
    let last_change := calculateChange (number_of elo_change) (number_of recent_change) in
    (* Use incremental updates to prevent race conditions *)
    let query := UpdateElo (number_of wins_change) (number_of losses_change)
                           (number_of elo_change) last_change id in
    match pool_query query p with
    | (QueryError _, p') =>
        (mkResponse 500 [("error", JsonString "Database error");
                         ("message", JsonString "Failed to update character")], p')
    | (QueryRows [], p') =>
        (mkResponse 404 [("error", JsonString "Character not found");
                         ("message", JsonString ("No character found with id: " +:+ id))], p')
    | (QueryRows ((rid, c) :: _), p') =>
        (mkResponse 200 [("message", JsonString "Character ELO updated successfully");
                         ("character", JsonCharacter rid c)], p')
    end.

(** *** Reading a record *)

(** What GET /characters/:id answers: an object, or the rows. *)
Inductive rows_answer :=
| AnswerObject (r : response)
| AnswerRows (status : Z) (rows : list (string * character)).

(** [getCharacterById]. Its statement, SELECT * FROM characters WHERE id =
    $1, reads the table and changes nothing; [query_fails] tells that the
    engine raises an error on it. *)
Definition getCharacterById (query_fails : bool) (id : string) (p : pool)
    : rows_answer :=
  if negb (JS.truthy_string id) || (JS.trim id =? "") then
    AnswerObject (mkResponse 400 [("error", JsonString "Invalid input");
                                  ("message", JsonString "Character ID is required")])
  else if query_fails then
    AnswerObject (mkResponse 500 [("error", JsonString "Database error");
                                  ("message", JsonString "Failed to retrieve character")])
  else AnswerRows 200 (returning (fun c => c) id (characters p)).

(** *** The routes of the scraper *)

(** POST /scrape-characters, without the timestamp of its answer. *)
Definition scrapeCharacters (scraped : result (list character)) (p : pool)
  : response * pool :=
match DatabaseTools.populateCharacters scraped p with
| (Return _, p') =>
    (mkResponse 200 [("message", JsonString "Characters scraped and saved successfully")], p')
| (Throw message, p') =>
    (mkResponse 500 [("error", JsonString "Failed to scrape characters");
                     ("message", JsonString message)], p')
end.

(** The delay POST /update-character-images takes from its query string. *)
Definition delay_of_query (delay : option string) : Z :=
JS.or_number (JS.parseInt delay) 1000.

(** POST /update-character-images?delay=.. *)
Definition updateCharacterImages (wiki : string -> page_result)
  (query_delay : option string) (p : pool) : response * pool * list event :=
(* Get delay from query parameter or use default of 1000ms *)
let delay := delay_of_query query_delay in
match DatabaseTools.updateCharacterImagesFromPages wiki p (Some delay) with
| (Return result, p', events) =>
    (mkResponse 200 [("message", JsonString "Character images updated successfully");
                     ("summary", JsonSummary result)], p', events)
| (Throw message, p', events) =>
    (mkResponse 500 [("error", JsonString "Failed to update character images");
                     ("message", JsonString message)], p', events)
end.

End Index.

(** The first version of the handler (the head of src/index.js): it takes the
    fields wins, losses, elo and recent_change and overwrites the columns
    with them. *)
Module Legacy.

Definition allowedFields : list string := ["wins"; "losses"; "elo"; "recent_change"].

Definition updateCharacterElo (id : string) (body : object) (p : pool)
    : response * pool :=
  let wins := get body "wins" in
  let losses := get body "losses" in
  let elo := get body "elo" in
  let recent_change := get body "recent_change" in
  let providedFields := keys body in
  let invalidFields :=
    List.filter (fun field => negb (JS.includes allowedFields field)) providedFields in
  if (0 <? length invalidFields)%nat then
    (mkResponse 400 [("error", JsonString "Invalid fields provided");
                     ("message", JsonString ("Only the following fields are allowed: " +:+ JS.join ", " allowedFields));
                     ("invalidFields", JsonStrings invalidFields)], p)
  else if is_undefined wins && is_undefined losses
          && is_undefined elo && is_undefined recent_change then
    (mkResponse 400 [("error", JsonString "No valid fields provided");
                     ("message", JsonString "At least one of the following fields must be provided: wins, losses, elo, recent_change")], p)
  else
    match pool_query (UpdateSet wins losses elo recent_change id) p with
    | (QueryError message, p') =>
        (mkResponse 500 [("error", JsonString "Failed to update character");
                         ("message", JsonString message)], p')
    | (QueryRows [], p') =>
        (mkResponse 404 [("error", JsonString "Character not found");
                         ("message", JsonString ("No character found with id: " +:+ id))], p')
    | (QueryRows ((rid, c) :: _), p') =>
        (mkResponse 200 [("message", JsonString "Character ELO updated successfully");
                         ("character", JsonCharacter rid c)], p')
    end.

End Legacy.

(** ** Requests in flight

    Express runs a handler for each request. [updateCharacterElo] touches the
    pool once, by the one statement it sends, and the engine runs a statement
    as one atomic operation: handlers of requests in flight interleave at
    that granularity, in any order. *)

Module Concurrent.

Record request := mkRequest {
  params_id : string;
  body : object
}.

Inductive task :=
| Pending (r : request)
| Answered (r : response).

Definition pending (t : task) : bool :=
  match t with Pending _ => true | Answered _ => false end.

(** One step of the server: some pending request is handled. *)
Inductive step : pool * list task -> pool * list task -> Prop :=
| step_handle p before r after :
    step (p, before ++ Pending r :: after)
         ((Index.updateCharacterElo (params_id r) (body r) p).2,
          before ++ Answered (Index.updateCharacterElo (params_id r) (body r) p).1 :: after).

(** The requests still pending. *)
Definition in_flight (ts : list task) : nat := length (List.filter pending ts).

(** Every request has been answered. *)
Definition quiescent (ts : list task) : Prop :=
  Forall (fun t => pending t = false) ts.

(** The schedule that handles the pending requests from left to right. *)
Fixpoint serve (p : pool) (ts : list task) : pool * list task :=
  match ts with
  | [] => (p, [])
  | Pending r :: ts' =>
      let '(resp, p') := Index.updateCharacterElo (params_id r) (body r) p in
      let '(p'', ts'') := serve p' ts' in
      (p'', Answered resp :: ts'')
  | Answered resp :: ts' =>
      let '(p'', ts'') := serve p ts' in
      (p'', Answered resp :: ts'')
  end.

End Concurrent.

(** ** Vocabulary of the statements *)

(** Sign-compatible: both at least 0, or both at most 0. *)
Definition sign_compatible (ratingDelta priorTrend : Z) : Prop :=
  (0 <= ratingDelta /\ 0 <= priorTrend)%Z \/ (ratingDelta <= 0 /\ priorTrend <= 0)%Z.

(** An identifier made of white space only (the empty one included). *)
Definition blank (id : string) : Prop := JS.trim id = "".

(** The body supplies the four delta fields, as numbers, and nothing else. *)
Definition supplies (body : object) (winsDelta lossesDelta ratingDelta rawRecentChange : Z) : Prop :=
  get body "wins_change" = Some (JNumber winsDelta) /\
  get body "losses_change" = Some (JNumber lossesDelta) /\
  get body "elo_change" = Some (JNumber ratingDelta) /\
  get body "recent_change" = Some (JNumber rawRecentChange) /\
  forall k, In k (keys body) -> In k Index.allowedFields.

(** A call ApplyDeltas(id, winsDelta, ...) with well-formed deltas. *)
Definition applies (id : string) (winsDelta : Z) (r : Concurrent.request) : Prop :=
  Concurrent.params_id r = id /\
  exists lossesDelta ratingDelta rawRecentChange,
    supplies (Concurrent.body r) winsDelta lossesDelta ratingDelta rawRecentChange.

(** The body omits the field [f] and supplies the three other required
    fields as numbers. *)
Definition omits_only (f : string) (body : object) : Prop :=
  In f Index.allowedFields /\
  get body f = None /\
  forall k, In k Index.allowedFields -> k <> f -> exists n, get body k = Some (JNumber n).

(** A field of the JSON object a handler answers with. *)
Fixpoint field (fields : list (string * json)) (k : string) : option json :=
  match fields with
  | (k', v) :: fields' => if String.eqb k' k then Some v else field fields' k
  | [] => None
  end.

(** The two answers of the validation of the body. *)
Definition missing_fields_answer : response :=
  mkResponse 400
    [("error", JsonString "Missing required fields");
     ("message", JsonString "All fields are required: wins_change, losses_change, elo_change, recent_change")].

Definition invalid_fields_answer (invalidFields : list string) : response :=
  mkResponse 400
    [("error", JsonString "Invalid fields provided");
     ("message", JsonString "Only these fields are allowed: wins_change, losses_change, elo_change, recent_change");
     ("invalidFields", JsonStrings invalidFields)].

(** The names fetched, and the waits, of a trace. *)
Definition fetched (events : list event) : list string :=
  omap (fun e => match e with Fetch n => Some n | _ => None end) events.

Definition waits (events : list event) : list Z :=
  omap (fun e => match e with Sleep ms => Some ms | _ => None end) events.

#[global] Instance verdict_eq_dec : EqDecision verdict.
Proof. solve_decision. Defined.

(** The verdict of the loop body on a row; of the pool, only the statements
    it refuses matter. *)
Definition classify (wiki : string -> page_result) (refused : statement -> bool)
    (row : string * character) : verdict :=
  match Scraper.scrapeCharacterImage wiki (first_name row.2) with
  | Some imageUrl => if refused (UpdateImagePath imageUrl row.1) then Failed else Updated
  | None => Skipped
  end.

(** The rows of a batch with a given verdict. *)
Definition classified (wiki : string -> page_result) (refused : statement -> bool)
    (v : verdict) (rows : list (string * character)) : Z :=
  Z.of_nat (length (filter (fun row => classify wiki refused row = v) rows)).

(** What the loop body does for a row, as events. *)
Definition row_events (wiki : string -> page_result) (refused : statement -> bool)
    (delay : Z) (row : string * character) : list event :=
  (if (delay >? 0)%Z then [Sleep delay] else [])
  ++ [Fetch (first_name row.2); Console (classify wiki refused row) (first_name row.2)].

(** The pool after the loop body on a row. *)
Definition row_effect (wiki : string -> page_result) (p : pool)
    (row : string * character) : pool :=
  match Scraper.scrapeCharacterImage wiki (first_name row.2) with
  | Some imageUrl => (pool_query (UpdateImagePath imageUrl row.1) p).2
  | None => p
  end.

(** The rows SELECT ... ORDER BY first_name returns. *)
Definition roster_rows (p : pool) : list (string * character) :=
  merge_sort by_first_name (map_to_list (characters p)).

(** The trend of a record whose clients hand back the stored recent_change
    with each delta, after the deltas from left to right. *)
Definition trend (priorTrend : Z) (deltas : list Z) : Z :=
  foldl (fun t d => Index.calculateChange d t) priorTrend deltas.

Definition sum_list (l : list Z) : Z := foldr Z.add 0%Z l.

(** The delta a task still has to apply to the column that the field [k]
    feeds. *)
Definition outstanding_delta (k : string) (t : Concurrent.task) : Z :=
  match t with
  | Concurrent.Pending r => number_of (get (Concurrent.body r) k)
  | Concurrent.Answered _ => 0
  end.

Definition outstanding (k : string) (ts : list Concurrent.task) : Z :=
  sum_list (outstanding_delta k <$> ts).

(** A call on the record [id] with well-formed deltas, whatever they are. *)
Definition well_formed_call (id : string) (r : Concurrent.request) : Prop :=
  Concurrent.params_id r = id /\
  exists w l e rc, supplies (Concurrent.body r) w l e rc.

(** Two versions of a record that differ at most by the rating columns (elo,
    recent_change, wins, losses). *)
Definition same_identity (c c' : character) : Prop :=
  first_name c' = first_name c /\ last_name c' = last_name c /\
  title c' = title c /\ image_path c' = image_path c /\ rank c' = rank c.

(** Two versions of a record that differ at most by image_path. *)
Definition same_but_image (c c' : character) : Prop :=
  first_name c' = first_name c /\ last_name c' = last_name c /\
  title c' = title c /\ elo c' = elo c /\ rank c' = rank c /\
  recent_change c' = recent_change c /\ wins c' = wins c /\ losses c' = losses c.

(** The table [t], as a backfill may leave the table [t0]: the same
    records, each with at most its image_path changed, and then to a
    non-empty URL scraped from the page of its name. *)
Definition backfilled (wiki : string -> page_result) (t0 t : gmap string character) : Prop :=
  forall id,
    match t0 !! id with
    | Some c =>
        exists c', t !! id = Some c' /\ same_but_image c c' /\
          (image_path c' = image_path c \/
           exists imageUrl, image_path c' = Some imageUrl /\ imageUrl <> "" /\
             Scraper.scrapeCharacterImage wiki (first_name c) = Some imageUrl)
    | None => t !! id = None
    end.

(** The UPDATE a batch sends for a row: one when an image is found for
    its name. *)
Definition image_update (wiki : string -> page_result) (row : string * character)
    : option statement :=
  (fun imageUrl => UpdateImagePath imageUrl row.1)
    <$> Scraper.scrapeCharacterImage wiki (first_name row.2).

(** The first code unit is white space. *)
Definition starts_with_space (s : string) : bool :=
  match s with
  | String c _ => JS.is_white_space c
  | EmptyString => false
  end.

(** No two adjacent white-space code units, and no white space other than
    the space. *)
Fixpoint single_spaced (s : string) : Prop :=
  match s with
  | String c s' =>
      (JS.is_white_space c = true -> c = " "%char) /\
      match s' with
      | String c' _ => ~ (JS.is_white_space c = true /\ JS.is_white_space c' = true)
      | EmptyString => True
      end /\
      single_spaced s'
  | EmptyString => True
  end.

(** ** Sample data *)

Module Sample.

Definition luffy : character := mkCharacter "Monkey D. Luffy" "" "" None 1000 1000 0 0 0.
Definition zoro : character := mkCharacter "Roronoa Zoro" "" "" (Some "zoro.png") 1000 1000 12 3 1.

Definition roster : pool :=
  mkPool (<["b2" := zoro]> (<["a1" := luffy]> ∅)) {["a1"; "b2"]} (fun _ => false) [].

Definition deltas : object :=
  [("wins_change", JNumber 1); ("losses_change", JNumber 0);
   ("elo_change", JNumber 16); ("recent_change", JNumber 5)].

(** Luffy's page cannot be fetched; Zoro's has a lazily loaded thumbnail. *)
Definition wiki (characterName : string) : page_result :=
  if String.eqb characterName "Monkey D. Luffy" then PageError "Request failed with status code 503"
  else Page (Some (mkImg None (Some "https://static.wikia.nocookie.net/zoro.png"))).

(** Two calls with winsDelta = 1 on Luffy's record. *)
Definition calls : list Concurrent.request :=
  [Concurrent.mkRequest "a1" deltas;
   Concurrent.mkRequest "a1"
     [("elo_change", JNumber (-8)); ("recent_change", JNumber 21);
      ("losses_change", JNumber 0); ("wins_change", JNumber 1)]].

(** The roster on a storage that raises an error on every statement. *)
Definition unreachable : pool :=
  mkPool (characters roster) (issued roster) (fun _ => true) [].

(** The roster on a storage that refuses to insert Zoro (a value too long
    for its column, say). *)
Definition no_zoro : pool :=
  mkPool (characters roster) (issued roster)
    (fun q => match q with
              | InsertCharacter c => String.eqb (first_name c) "Roronoa Zoro"
              | _ => false
              end) [].

(** The roster on a storage that refuses the DELETE. *)
Definition no_delete : pool :=
  mkPool (characters roster) (issued roster)
    (fun q => match q with DeleteCharacters => true | _ => false end) [].

(** A listing: a header row, a row with a picture and a name, a row of one
    cell, and a row whose name comes in its third cell. *)
Definition listing : list table_row :=
  [mkRow ["Name"; "Chapter"] None;
   mkRow [""; "  Monkey  D.	Luffy "; "Chapter 1"] (Some (mkImg (Some "luffy.png") None));
   mkRow ["Nami"] None;
   mkRow ["?"; ""; "Roronoa Zoro"; "Chapter 3"] None].

End Sample.

(** * Properties *)

Import Index.

(** ** ChangeAccumulator *)

Lemma calculateChange_cases (d t : Z) :
  (sign_compatible d t /\ calculateChange d t = (d + t)%Z) \/
  (~ sign_compatible d t /\ calculateChange d t = d).
Proof.
  unfold calculateChange, sign_compatible.
  rewrite !Z.geb_leb.
  destruct (Z.leb_spec 0 d), (Z.leb_spec 0 t), (Z.leb_spec d 0), (Z.leb_spec t 0);
    simpl; first [ left; split; lia | right; split; lia ].
Qed.

(** C1. For all integers ratingDelta and priorTrend, [calculateChange]
    returns their sum when the two are sign-compatible (both at least 0 or
    both at most 0), and ratingDelta alone otherwise; in particular
    Merge(5,3)=8, Merge(-5,-3)=-8, Merge(5,-3)=5, Merge(-5,3)=-5,
    Merge(0,7)=7 and Merge(-5,0)=-5. *)
Theorem calculateChange_merge :
  (forall ratingDelta priorTrend : Z,
     sign_compatible ratingDelta priorTrend ->
     calculateChange ratingDelta priorTrend = (ratingDelta + priorTrend)%Z) /\
  (forall ratingDelta priorTrend : Z,
     ~ sign_compatible ratingDelta priorTrend ->
     calculateChange ratingDelta priorTrend = ratingDelta) /\
  calculateChange 5 3 = 8%Z /\
  calculateChange (-5) (-3) = (-8)%Z /\
  calculateChange 5 (-3) = 5%Z /\
  calculateChange (-5) 3 = (-5)%Z /\
  calculateChange 0 7 = 7%Z /\
  calculateChange (-5) 0 = (-5)%Z.
Proof.
  split; [| split].
  - intros d t Hc. destruct (calculateChange_cases d t) as [[_ ->]|[Hn _]]; [done | tauto].
  - intros d t Hn. destruct (calculateChange_cases d t) as [[Hc _]|[_ ->]]; [tauto | done].
  - repeat split; reflexivity.
Qed.

(** C10. For every nonzero ratingDelta d and every integer priorTrend t,
    [calculateChange d t] has the sign of d and a magnitude of at least |d|:
    the merged trend never opposes the most recent rating delta. *)
Theorem calculateChange_follows_delta (d t : Z) :
  d <> 0%Z ->
  Z.sgn (calculateChange d t) = Z.sgn d /\ (Z.abs d <= Z.abs (calculateChange d t))%Z.
Proof.
  intros Hd.
  destruct (calculateChange_cases d t) as [[Hc ->]|[_ ->]]; [| split; lia].
  unfold sign_compatible in Hc. split; lia.
Qed.

Lemma calculateChange_follows_delta_witness :
  (-5 <> 0)%Z /\
  Z.sgn (calculateChange (-5) (-3)) = Z.sgn (-5) /\
  (Z.abs (-5) <= Z.abs (calculateChange (-5) (-3)))%Z.
Proof.
  split; [lia |]. apply (calculateChange_follows_delta (-5) (-3)). lia.
Defined.

(** ** RatingLedger *)

Lemma includes_In (l : list string) (x : string) : JS.includes l x = true <-> In x l.
Proof.
  unfold JS.includes. rewrite existsb_exists. split.
  - intros (y & Hy & Heq). apply String.eqb_eq in Heq. by subst.
  - intros Hx. exists x. split; [done | apply String.eqb_refl].
Qed.

Lemma filter_nil (P : string -> bool) (ks : list string) :
  (forall k, In k ks -> P k = false) -> List.filter P ks = [].
Proof.
  induction ks as [|k ks IH]; intros Hall; [done |].
  simpl. rewrite (Hall k) by (by left).
  apply IH. intros k' Hk'. apply Hall. by right.
Qed.

Lemma filter_single (P : string -> bool) (x : string) (ks : list string) :
  NoDup ks -> In x ks -> P x = true ->
  (forall k, In k ks -> k <> x -> P k = false) ->
  List.filter P ks = [x].
Proof.
  induction ks as [|k ks IH]; intros Hnd Hin Hx Hothers; [destruct Hin |].
  apply NoDup_cons in Hnd as [Hk Hnd]. rewrite list_elem_of_In in Hk.
  destruct (decide (k = x)) as [->|Hne]; simpl.
  - rewrite Hx. f_equal. apply filter_nil.
    intros k Hin' . apply Hothers; [by right |]. by intros ->.
  - rewrite (Hothers k) by (done || by left).
    apply IH; [done | | done |].
    + by destruct Hin as [->|Hin].
    + intros k' Hin' Hne'. apply Hothers; [by right | done].
Qed.

Lemma filter_allowed_nil (allowed ks : list string) :
  (forall k, In k ks -> In k allowed) ->
  List.filter (fun field => negb (JS.includes allowed field)) ks = [].
Proof.
  intros Hall. apply filter_nil. intros k Hk.
  apply negb_false_iff, includes_In, Hall, Hk.
Qed.

Lemma trimStart_empty (s : string) :
  JS.trimStart s = "" <->
  forall c, In c (list_ascii_of_string s) -> JS.is_white_space c = true.
Proof.
  induction s as [|c s IH]; cbn; [by split |].
  destruct (JS.is_white_space c) eqn:Hc.
  - rewrite IH. split; [intros H c' [<-|Hc']; auto | auto].
  - split; [done |]. intros H. specialize (H c (or_introl eq_refl)). congruence.
Qed.

Lemma trimEnd_empty (s : string) :
  JS.trimEnd s = "" <->
  forall c, In c (list_ascii_of_string s) -> JS.is_white_space c = true.
Proof.
  induction s as [|c s IH]; cbn; [by split |].
  destruct (JS.trimEnd s) as [|c' t] eqn:Ht.
  - destruct (JS.is_white_space c) eqn:Hc.
    + split; [| done]. intros _ c' [<-|Hc']; [done |]. by apply IH.
    + split; [done |]. intros H. specialize (H c (or_introl eq_refl)). congruence.
  - split; [done |]. intros H.
    assert (String c' t = "") as Habs by (apply IH; auto). discriminate.
Qed.

Lemma trimStart_head (s : string) (c : ascii) (t : string) :
  JS.trimStart s = String c t -> JS.is_white_space c = false.
Proof.
  induction s as [|c' s IH]; cbn; [done |].
  destruct (JS.is_white_space c') eqn:Hc'; [done |]. congruence.
Qed.

(** A blank identifier is one made of white space only. *)
Lemma blank_white_space (id : string) :
  blank id <->
  forall c, In c (list_ascii_of_string id) -> JS.is_white_space c = true.
Proof.
  unfold blank, JS.trim. rewrite <- trimStart_empty, trimEnd_empty.
  destruct (JS.trimStart id) as [|c t] eqn:Hs; [by split |].
  split; [| done]. intros H.
  specialize (H c (or_introl eq_refl)).
  apply trimStart_head in Hs. congruence.
Qed.

Lemma id_check_passes (id : string) :
  ~ blank id -> negb (JS.truthy_string id) || (JS.trim id =? "") = false.
Proof.
  unfold blank, JS.truthy_string. intros Hb.
  apply orb_false_intro.
  - rewrite negb_involutive. apply String.eqb_neq. by intros ->.
  - by apply String.eqb_neq.
Qed.

Lemma id_check_fails (id : string) :
  blank id -> negb (JS.truthy_string id) || (JS.trim id =? "") = true.
Proof.
  unfold blank. intros ->. rewrite String.eqb_refl. apply orb_true_r.
Qed.

Lemma updateCharacterElo_validated id body p w l e r :
  supplies body w l e r -> ~ blank id ->
  updateCharacterElo id body p =
    match pool_query (UpdateElo w l e (calculateChange e r) id) p with
    | (QueryError _, p') =>
        (mkResponse 500 [("error", JsonString "Database error");
                         ("message", JsonString "Failed to update character")], p')
    | (QueryRows [], p') =>
        (mkResponse 404 [("error", JsonString "Character not found");
                         ("message", JsonString ("No character found with id: " +:+ id))], p')
    | (QueryRows ((rid, c) :: _), p') =>
        (mkResponse 200 [("message", JsonString "Character ELO updated successfully");
                         ("character", JsonCharacter rid c)], p')
    end.
Proof.
  intros (Hw & Hl & He & Hr & Hk) Hid.
  unfold updateCharacterElo.
  rewrite (id_check_passes id Hid), Hw, Hl, He, Hr.
  cbn [is_undefined isNaN number_of orb].
  rewrite (filter_allowed_nil _ _ Hk). reflexivity.
Qed.

(** A statement the engine accepts is logged and run. *)
Lemma pool_query_accepted (q : statement) (p : pool) :
  refuses p q = false -> well_typed q = true ->
  pool_query q p =
    (QueryRows (run_statement q (logged q p)).1, (run_statement q (logged q p)).2).
Proof.
  intros Hr Ht. unfold pool_query. cbn [refuses logged].
  rewrite Hr, Ht. cbn [orb negb]. by destruct (run_statement q _).
Qed.

Lemma pool_query_refused (q : statement) (p : pool) :
  refuses p q = true -> pool_query q p = (QueryError "query failed", logged q p).
Proof. intros Hr. unfold pool_query. cbn [refuses logged]. by rewrite Hr. Qed.

(** The handler on a valid request: one UPDATE, whose outcome decides the
    answer. *)
Lemma updateCharacterElo_applied id body p w l e r :
  supplies body w l e r -> ~ blank id ->
  refuses p (UpdateElo w l e (calculateChange e r) id) = false ->
  updateCharacterElo id body p =
    (match characters p !! id with
     | Some c =>
         mkResponse 200 [("message", JsonString "Character ELO updated successfully");
                         ("character", JsonCharacter id (add_elo w l e (calculateChange e r) c))]
     | None =>
         mkResponse 404 [("error", JsonString "Character not found");
                         ("message", JsonString ("No character found with id: " +:+ id))]
     end,
     {| characters := alter (add_elo w l e (calculateChange e r)) id (characters p);
        issued := issued p; refuses := refuses p;
        log := log p ++ [UpdateElo w l e (calculateChange e r) id] |}).
Proof.
  intros Hs Hid Hr.
  rewrite (updateCharacterElo_validated id body p w l e r Hs Hid).
  rewrite (pool_query_accepted _ p Hr eq_refl).
  cbn [run_statement fst snd logged with_characters characters issued refuses log].
  unfold returning. by destruct (characters p !! id).
Qed.

(** C2 (amended). For every request that supplies exactly the four numeric
    fields and whose UPDATE the storage accepts: with a blank id (empty or
    white space only) the handler answers 400 and sends nothing to the
    storage; with any other id it sends exactly one statement, the relative
    UPDATE with recent_change set to [calculateChange ratingDelta
    rawRecentChange]; if a record matches id, its wins, losses and elo grow
    by the deltas, no other record changes and the answer is 200 with the
    record after the update; if none matches, the answer is 404 and no
    record is changed. *)
Theorem updateCharacterElo_relative_update id body p w l e r :
  supplies body w l e r ->
  refuses p (UpdateElo w l e (calculateChange e r) id) = false ->
  (blank id ->
     updateCharacterElo id body p =
       (mkResponse 400 [("error", JsonString "Invalid input");
                        ("message", JsonString "Character ID is required")], p)) /\
  (~ blank id ->
     log (updateCharacterElo id body p).2
       = log p ++ [UpdateElo w l e (calculateChange e r) id] /\
     match characters p !! id with
     | Some c =>
         let c' := {| first_name := first_name c; last_name := last_name c;
                      title := title c; image_path := image_path c;
                      elo := elo c + e; rank := rank c;
                      recent_change := calculateChange e r;
                      wins := wins c + w; losses := losses c + l |} in
         (updateCharacterElo id body p).1
           = mkResponse 200 [("message", JsonString "Character ELO updated successfully");
                             ("character", JsonCharacter id c')] /\
         characters (updateCharacterElo id body p).2 = <[id := c']> (characters p)
     | None =>
         status (updateCharacterElo id body p).1 = 404%Z /\
         characters (updateCharacterElo id body p).2 = characters p
     end).
Proof.
  intros Hs Hr. split.
  - intros Hb. unfold updateCharacterElo. by rewrite (id_check_fails id Hb).
  - intros Hid. rewrite (updateCharacterElo_applied id body p w l e r Hs Hid Hr).
    cbn [fst snd log characters]. split; [done |].
    rewrite alter_alt. by destruct (characters p !! id).
Qed.

Lemma supplies_sample : supplies Sample.deltas 1 0 16 5.
Proof.
  repeat split; try reflexivity.
  intros k Hk. cbn in Hk. cbn. tauto.
Defined.

Lemma updateCharacterElo_relative_update_witness :
  log (updateCharacterElo "a1" Sample.deltas Sample.roster).2 = [UpdateElo 1 0 16 21 "a1"] /\
  (updateCharacterElo "a1" Sample.deltas Sample.roster).1
    = mkResponse 200 [("message", JsonString "Character ELO updated successfully");
                      ("character", JsonCharacter "a1"
                         (mkCharacter "Monkey D. Luffy" "" "" None 1016 1000 21 1 0))].
Proof.
  destruct (updateCharacterElo_relative_update "a1" Sample.deltas Sample.roster 1 0 16 5
              supplies_sample eq_refl) as [_ H].
  destruct H as [Hlog Hrec]; [by vm_compute |].
  split; [exact Hlog |].
  change (characters Sample.roster !! "a1") with (Some Sample.luffy) in Hrec.
  exact (proj1 Hrec).
Defined.

(** C2, as stated, fails on a blank id: no record matches it, and the answer
    is 400, not 404. *)
Lemma updateCharacterElo_blank_id_counterexample :
  supplies Sample.deltas 1 0 16 5 /\
  characters Sample.roster !! " " = None /\
  status (updateCharacterElo " " Sample.deltas Sample.roster).1 = 400%Z /\
  status (updateCharacterElo " " Sample.deltas Sample.roster).1 <> 404%Z.
Proof.
  split; [exact supplies_sample |].
  split; [by vm_compute |].
  split; [by vm_compute |].
  vm_compute. discriminate.
Qed.

(** The first version of the handler refuses the four delta fields: three of
    them are not among the fields it allows. *)
Lemma legacy_rejects_deltas id body p w l e r :
  supplies body w l e r ->
  status (Legacy.updateCharacterElo id body p).1 = 400%Z /\
  (Legacy.updateCharacterElo id body p).2 = p.
Proof.
  intros (Hw & _). unfold Legacy.updateCharacterElo.
  destruct (List.filter _ (keys body)) as [|k ks] eqn:Hf; [| done].
  exfalso.
  assert (In "wins_change" (keys body)) as Hin.
  { clear Hf. induction body as [|[k v] body IH]; [done |].
    simpl in Hw. destruct (String.eqb_spec k "wins_change") as [->|_]; [by left |].
    right. by apply IH. }
  assert (In "wins_change" (List.filter
            (fun field => negb (JS.includes Legacy.allowedFields field)) (keys body))) as Hin'.
  { apply filter_In. by split. }
  rewrite Hf in Hin'. destruct Hin'.
Qed.

(** And with the fields it allows, it overwrites the columns. *)
Example legacy_overwrites :
  (Legacy.updateCharacterElo "b2" [("wins", JNumber 1)] Sample.roster).1
    = mkResponse 200 [("message", JsonString "Character ELO updated successfully");
                      ("character", JsonCharacter "b2"
                         (mkCharacter "Roronoa Zoro" "" "" (Some "zoro.png") 1000 1000 12 1 1))].
Proof. by vm_compute. Qed.

(** The validation answers on a missing field whatever else the body holds. *)
Lemma updateCharacterElo_missing id body p f :
  ~ blank id -> In f allowedFields -> get body f = None ->
  updateCharacterElo id body p = (missing_fields_answer, p).
Proof.
  intros Hid Hf Hnone. unfold updateCharacterElo.
  rewrite (id_check_passes id Hid).
  assert (is_undefined (get body "wins_change") || is_undefined (get body "losses_change")
          || is_undefined (get body "elo_change") || is_undefined (get body "recent_change")
          = true) as ->; [| done].
  cbn in Hf. destruct Hf as [<-|[<-|[<-|[<-|[]]]]]; rewrite Hnone; cbn;
    rewrite ?orb_true_r; done.
Qed.

(** C4 (amended). For every request with a non-blank id whose body omits one
    of the four required fields, the handler answers 400 with the error
    "Missing required fields" and a fixed message that names all four
    required fields, not the omitted one alone, and sends nothing to the
    storage; this answer differs from every answer of the unexpected-field
    rule by its error string. *)
Theorem updateCharacterElo_missing_field id body p f :
  ~ blank id -> omits_only f body ->
  updateCharacterElo id body p = (missing_fields_answer, p) /\
  status missing_fields_answer = 400%Z /\
  field (payload missing_fields_answer) "message"
    = Some (JsonString "All fields are required: wins_change, losses_change, elo_change, recent_change") /\
  forall invalidFields,
    field (payload missing_fields_answer) "error"
      <> field (payload (invalid_fields_answer invalidFields)) "error".
Proof.
  intros Hid (Hf & Hnone & _).
  split; [by apply (updateCharacterElo_missing id body p f) |].
  repeat split. intros invalidFields. cbn. discriminate.
Qed.

Lemma omits_only_wins :
  omits_only "wins_change"
    [("losses_change", JNumber 0); ("elo_change", JNumber 16); ("recent_change", JNumber 5)].
Proof.
  split; [cbn; tauto |]. split; [reflexivity |].
  intros k Hk Hne. cbn in Hk.
  destruct Hk as [<-|[<-|[<-|[<-|[]]]]]; first [done | eexists; reflexivity].
Defined.

Lemma omits_only_losses :
  omits_only "losses_change"
    [("wins_change", JNumber 1); ("elo_change", JNumber 16); ("recent_change", JNumber 5)].
Proof.
  split; [cbn; tauto |]. split; [reflexivity |].
  intros k Hk Hne. cbn in Hk.
  destruct Hk as [<-|[<-|[<-|[<-|[]]]]]; first [done | eexists; reflexivity].
Defined.

Lemma not_blank_a1 : ~ blank "a1".
Proof. unfold blank. cbn. discriminate. Defined.

Lemma updateCharacterElo_missing_field_witness :
  updateCharacterElo "a1"
    [("losses_change", JNumber 0); ("elo_change", JNumber 16); ("recent_change", JNumber 5)]
    Sample.roster
  = (missing_fields_answer, Sample.roster).
Proof.
  exact (proj1 (updateCharacterElo_missing_field "a1" _ Sample.roster "wins_change"
                  not_blank_a1 omits_only_wins)).
Defined.

(** C4, as stated, fails: the answer to a body that omits wins_change is the
    answer to a body that omits losses_change, so nothing read from the
    answer is the omitted field. *)
Lemma missing_field_not_listed_counterexample :
  ~ exists listed : response -> list string,
      forall f body, omits_only f body ->
        listed (updateCharacterElo "a1" body Sample.roster).1 = [f].
Proof.
  intros [listed H].
  pose proof (H _ _ omits_only_wins) as H1.
  pose proof (H _ _ omits_only_losses) as H2.
  rewrite (updateCharacterElo_missing "a1" _ Sample.roster "wins_change" not_blank_a1) in H1;
    [| cbn; tauto | reflexivity].
  rewrite (updateCharacterElo_missing "a1" _ Sample.roster "losses_change" not_blank_a1) in H2;
    [| cbn; tauto | reflexivity].
  cbn [fst] in H1, H2. congruence.
Qed.

(** C5 (amended). For every request with a non-blank id whose body holds the
    four required fields as numbers and one more field (foo, or any name that
    is not allowed), the handler answers 400 with that field alone in
    invalidFields and sends nothing to the storage. When a required field is
    missing or not a number, the earlier checks answer first and the extra
    field is not listed. *)
Theorem updateCharacterElo_extra_field id body p extra w l e r :
  ~ blank id ->
  get body "wins_change" = Some (JNumber w) ->
  get body "losses_change" = Some (JNumber l) ->
  get body "elo_change" = Some (JNumber e) ->
  get body "recent_change" = Some (JNumber r) ->
  NoDup (keys body) ->
  In extra (keys body) ->
  ~ In extra allowedFields ->
  (forall k, In k (keys body) -> k = extra \/ In k allowedFields) ->
  updateCharacterElo id body p = (invalid_fields_answer [extra], p).
Proof.
  intros Hid Hw Hl He Hr Hnd Hin Hextra Hkeys.
  unfold updateCharacterElo.
  rewrite (id_check_passes id Hid), Hw, Hl, He, Hr.
  cbn [is_undefined isNaN orb].
  rewrite (filter_single _ extra (keys body) Hnd Hin).
  - reflexivity.
  - apply negb_true_iff. apply not_true_is_false. by rewrite includes_In.
  - intros k Hk Hne. apply negb_false_iff, includes_In.
    by destruct (Hkeys k Hk).
Qed.

Lemma updateCharacterElo_extra_field_witness :
  updateCharacterElo "a1" (("foo", JNumber 7) :: Sample.deltas) Sample.roster
  = (invalid_fields_answer ["foo"], Sample.roster).
Proof.
  apply (updateCharacterElo_extra_field "a1" _ Sample.roster "foo" 1 0 16 5);
    try reflexivity.
  - exact not_blank_a1.
  - cbn. repeat (apply NoDup_cons; split; [rewrite list_elem_of_In; cbn; intuition discriminate |]).
    apply NoDup_nil_2.
  - cbn. tauto.
  - cbn. intuition discriminate.
  - cbn. intuition congruence.
Defined.

(** C5, as stated, fails when the required fields are not in the body: the
    answer is the one of the missing-field rule and has no invalidFields. *)
Lemma extra_field_alone_counterexample :
  In "foo" (keys [("foo", JNumber 7)]) /\
  ~ In "foo" allowedFields /\
  (updateCharacterElo "a1" [("foo", JNumber 7)] Sample.roster).1 = missing_fields_answer /\
  field (payload (updateCharacterElo "a1" [("foo", JNumber 7)] Sample.roster).1) "invalidFields"
    = None.
Proof.
  split; [cbn; tauto |].
  split; [cbn; intuition discriminate |].
  split; by vm_compute.
Qed.

(** ** Concurrent calls *)

Import Concurrent.

Lemma step_cons (t : task) (s s' : pool * list task) :
  step s s' -> step (s.1, t :: s.2) (s'.1, t :: s'.2).
Proof.
  intros [p before r after]. cbn [fst snd].
  apply (step_handle p (t :: before) r after).
Qed.

Lemma steps_cons (t : task) (s s' : pool * list task) :
  rtc step s s' -> rtc step (s.1, t :: s.2) (s'.1, t :: s'.2).
Proof.
  induction 1 as [s|s1 s2 s3 H12 _ IH]; [apply rtc_refl |].
  eapply rtc_l; [apply step_cons, H12 | exact IH].
Qed.

(** Handling the pending requests from left to right is an execution, and
    it answers them all. *)
Lemma serve_steps (ts : list task) (p : pool) : rtc step (p, ts) (serve p ts).
Proof.
  revert p. induction ts as [|[r|resp] ts IH]; intros p; cbn [serve].
  - apply rtc_refl.
  - destruct (updateCharacterElo (params_id r) (body r) p) as [resp p1] eqn:Hh.
    specialize (IH p1). destruct (serve p1 ts) as [p2 ts2].
    eapply rtc_l.
    + apply (step_handle p [] r ts).
    + rewrite Hh. cbn [fst snd app]. apply (steps_cons (Answered resp) _ _ IH).
  - specialize (IH p). destruct (serve p ts) as [p2 ts2].
    apply (steps_cons (Answered resp) _ _ IH).
Qed.

Lemma serve_quiescent (ts : list task) (p : pool) : quiescent (serve p ts).2.
Proof.
  revert p. induction ts as [|[r|resp] ts IH]; intros p; cbn [serve].
  - constructor.
  - destruct (updateCharacterElo _ _ p) as [resp p1].
    specialize (IH p1). destruct (serve p1 ts). by constructor.
  - specialize (IH p). destruct (serve p ts). by constructor.
Qed.

Lemma in_flight_app (ts1 ts2 : list task) :
  in_flight (ts1 ++ ts2) = (in_flight ts1 + in_flight ts2)%nat.
Proof. unfold in_flight. by rewrite List.filter_app, length_app. Qed.

Lemma quiescent_in_flight (ts : list task) : quiescent ts -> in_flight ts = 0%nat.
Proof.
  unfold in_flight. induction 1 as [|t ts Ht _ IH]; [done |].
  simpl. by rewrite Ht.
Qed.

(** What holds of the server while [N] calls with winsDelta = 1 on the
    record [id] are handled: the wins of the record and the calls still
    pending add up to the prior wins plus [N]. *)
Lemma wins_invariant_step (id : string) (target : Z) (s s' : pool * list task) :
  ~ blank id ->
  step s s' ->
  (forall w l e r, refuses s.1 (UpdateElo w l e r id) = false) ->
  Forall (fun t => match t with Pending r => applies id 1 r | Answered _ => True end) s.2 ->
  (exists c, characters s.1 !! id = Some c /\ (wins c + Z.of_nat (in_flight s.2) = target)%Z) ->
  (forall w l e r, refuses s'.1 (UpdateElo w l e r id) = false) /\
  Forall (fun t => match t with Pending r => applies id 1 r | Answered _ => True end) s'.2 /\
  (exists c, characters s'.1 !! id = Some c /\ (wins c + Z.of_nat (in_flight s'.2) = target)%Z).
Proof.
  intros Hid [p before r after]. cbn [fst snd]. intros Hacc Hall (c & Hc & Hsum).
  apply Forall_app in Hall as [Hbefore Hall].
  apply Forall_cons in Hall as [(Hrid & l & e & rc & Hs) Hafter].
  rewrite Hrid.
  rewrite (updateCharacterElo_applied id (body r) p 1 l e rc Hs Hid (Hacc _ _ _ _)).
  cbn [fst snd refuses characters].
  split; [exact Hacc |]. split.
  - apply Forall_app. split; [done |]. by apply Forall_cons.
  - exists (add_elo 1 l e (calculateChange e rc) c). split.
    + rewrite lookup_alter. rewrite decide_True by done. by rewrite Hc.
    + rewrite in_flight_app in *. unfold in_flight in *.
      cbn [List.filter pending length add_elo wins] in *. lia.
Qed.

Lemma wins_invariant_steps (id : string) (target : Z) (s s' : pool * list task) :
  ~ blank id ->
  rtc step s s' ->
  (forall w l e r, refuses s.1 (UpdateElo w l e r id) = false) ->
  Forall (fun t => match t with Pending r => applies id 1 r | Answered _ => True end) s.2 ->
  (exists c, characters s.1 !! id = Some c /\ (wins c + Z.of_nat (in_flight s.2) = target)%Z) ->
  exists c, characters s'.1 !! id = Some c /\ (wins c + Z.of_nat (in_flight s'.2) = target)%Z.
Proof.
  intros Hid Hsteps. induction Hsteps as [s|s1 s2 s3 H12 _ IH]; intros Hacc Hall Hinv; [done |].
  destruct (wins_invariant_step id target s1 s2 Hid H12 Hacc Hall Hinv) as (? & ? & ?).
  by apply IH.
Qed.

Lemma in_flight_pending (reqs : list request) :
  in_flight (Pending <$> reqs) = length reqs.
Proof.
  unfold in_flight. induction reqs as [|r reqs IH]; [done |].
  cbn. by rewrite <- IH.
Qed.

(** C3. For every N of at least 2, N concurrent calls with winsDelta = 1 on
    the same record, each one atomic relative UPDATE that the storage
    accepts, can be handled to the end, and in whatever order they are
    handled the record's wins end at its prior wins plus N: no update is
    lost. *)
Theorem concurrent_wins_no_lost_update (N : nat) (id : string) (p : pool)
    (c : character) (reqs : list request) :
  2 <= N ->
  length reqs = N ->
  ~ blank id ->
  characters p !! id = Some c ->
  (forall w l e r, refuses p (UpdateElo w l e r id) = false) ->
  Forall (applies id 1) reqs ->
  (exists p' ts', rtc step (p, Pending <$> reqs) (p', ts') /\ quiescent ts') /\
  (forall p' ts',
     rtc step (p, Pending <$> reqs) (p', ts') -> quiescent ts' ->
     wins <$> characters p' !! id = Some (wins c + Z.of_nat N)%Z).
Proof.
  intros _ Hlen Hid Hc Hacc Hreqs. split.
  - exists (serve p (Pending <$> reqs)).1, (serve p (Pending <$> reqs)).2. split.
    + rewrite <- surjective_pairing. apply serve_steps.
    + apply serve_quiescent.
  - intros p' ts' Hsteps Hq.
    destruct (wins_invariant_steps id (wins c + Z.of_nat N) _ _ Hid Hsteps) as (c' & Hc' & Hsum).
    + exact Hacc.
    + cbn [snd]. apply Forall_fmap. eapply Forall_impl; [exact Hreqs | done].
    + exists c. cbn [fst snd]. split; [done |]. by rewrite in_flight_pending, Hlen.
    + cbn [fst snd] in *. rewrite Hc'. cbn. f_equal.
      rewrite (quiescent_in_flight ts' Hq) in Hsum. lia.
Qed.

(** The first version of the handler, for contrast: two clients that read
    wins = 3 and each write back 4 leave the record at 4, one win lost. *)
Example legacy_lost_update :
  wins <$> characters Sample.roster !! "b2" = Some 3%Z /\
  wins <$> characters
    (Legacy.updateCharacterElo "b2" [("wins", JNumber 4)]
       (Legacy.updateCharacterElo "b2" [("wins", JNumber 4)] Sample.roster).2).2 !! "b2"
  = Some 4%Z.
Proof. split; by vm_compute. Qed.

Lemma applies_sample : Forall (applies "a1" 1) Sample.calls.
Proof.
  repeat constructor; cbn; try (eexists _, _, _); repeat split; try reflexivity;
    cbn; intros k; tauto.
Defined.

Lemma concurrent_wins_no_lost_update_witness :
  wins <$> characters (serve Sample.roster (Pending <$> Sample.calls)).1 !! "a1"
  = Some (0 + 2)%Z.
Proof.
  destruct (concurrent_wins_no_lost_update 2 "a1" Sample.roster Sample.luffy Sample.calls)
    as [_ H].
  - lia.
  - reflexivity.
  - exact not_blank_a1.
  - reflexivity.
  - reflexivity.
  - exact applies_sample.
  - apply (H _ (serve Sample.roster (Pending <$> Sample.calls)).2).
    + rewrite <- surjective_pairing. apply serve_steps.
    + apply serve_quiescent.
Defined.

(** ** RosterSynchronizer *)

Import Scraper.

(** The identifiers in the table have been drawn from [gen_random_uuid()];
    every statement keeps it so. *)
Lemma pool_query_issued (q : statement) (p : pool) :
  dom (characters p) ⊆ issued p ->
  dom (characters (pool_query q p).2) ⊆ issued (pool_query q p).2.
Proof.
  intros Hwf. unfold pool_query.
  destruct (refuses (logged q p) q || negb (well_typed q)); [done |].
  destruct q; cbn; rewrite ?dom_alter_L, ?dom_insert_L, ?dom_empty_L; set_solver.
Qed.

(** The inserts of a resync that the storage accepts: each row goes in under
    an identifier drawn for it. *)
Lemma insert_characters_accepted (cs : list character) (p : pool) :
  (forall c, c ∈ cs -> refuses p (InsertCharacter c) = false) ->
  exists ids : list string,
    insert_characters cs p =
      (Return tt,
       {| characters := list_to_map (zip ids cs) ∪ characters p;
          issued := list_to_set ids ∪ issued p;
          refuses := refuses p;
          log := log p ++ (InsertCharacter <$> cs) |}) /\
    length ids = length cs /\
    NoDup ids /\
    (forall id, id ∈ ids -> id ∉ issued p).
Proof.
  revert p. induction cs as [|c cs IH]; intros p Hacc.
  - exists []. cbn. rewrite (left_id_L ∅ (∪)), (left_id_L ∅ (∪)), app_nil_r.
    split; [by destruct p |]. split; [done |]. split; [constructor |]. set_solver.
  - cbn [insert_characters].
    rewrite (pool_query_accepted (InsertCharacter c) p (Hacc c ltac:(by left)) eq_refl).
    cbn [run_statement fst snd logged characters issued refuses log].
    set (id := gen_random_uuid _).
    assert (id ∉ issued p) as Hfresh by apply (is_fresh (issued p)).
    edestruct (IH {| characters := <[id:=c]> (characters p);
                     issued := {[id]} ∪ issued p;
                     refuses := refuses p;
                     log := log p ++ [InsertCharacter c] |})
      as (ids & -> & Hlen & Hnd & Hnew); [intros c' Hc'; apply Hacc; by right |].
    cbn [characters issued refuses log].
    assert (id ∉ ids) as Hid by (intros Hin; apply (Hnew id Hin); set_solver).
    exists (id :: ids). split; [| split; [| split]].
    + f_equal. f_equal.
      * cbn [zip zip_with list_to_map foldr uncurry fst snd].
        rewrite <- insert_union_l. symmetry. apply insert_union_r.
        apply not_elem_of_list_to_map_1. by rewrite fst_zip by lia.
      * cbn. set_solver.
      * cbn. by rewrite <- app_assoc.
    + cbn. by rewrite Hlen.
    + by apply NoDup_cons.
    + intros id' [->|Hin]%elem_of_cons; [done |]. specialize (Hnew id' Hin). set_solver.
Qed.

(** POST /scrape-characters with an empty result of the scraper: only the
    CREATE TABLE IF NOT EXISTS is sent, and the roster is as it was. *)
Lemma scrapeCharacters_empty (p : pool) :
  refuses p CreateCharactersTable = false ->
  status (scrapeCharacters (Return []) p).1 = 200%Z /\
  characters (scrapeCharacters (Return []) p).2 = characters p /\
  log (scrapeCharacters (Return []) p).2 = log p ++ [CreateCharactersTable].
Proof.
  intros Hacc. unfold scrapeCharacters, DatabaseTools.populateCharacters,
    DatabaseTools.createCharactersTable.
  by rewrite (pool_query_accepted CreateCharactersTable p Hacc eq_refl).
Qed.

(** C6. For every fetch result of [scrapeAndSaveCharacters]: an error of the
    scraper is passed on and an empty result is returned, both without a
    statement sent to the storage, so the roster is as it was; otherwise,
    the storage accepting the statements, the function first deletes all the
    records and then inserts every fetched entry, in order, each as a new
    record under an identifier drawn for it, that no record had before. *)
Theorem scrapeAndSaveCharacters_full_replace (p : pool) :
  (forall message, scrapeAndSaveCharacters (Throw message) p = (Throw message, p)) /\
  scrapeAndSaveCharacters (Return []) p = (Return [], p) /\
  (forall scraped : list character,
     scraped <> [] ->
     refuses p DeleteCharacters = false ->
     (forall c, c ∈ scraped -> refuses p (InsertCharacter c) = false) ->
     dom (characters p) ⊆ issued p ->
     exists ids : list string,
       (scrapeAndSaveCharacters (Return scraped) p).1 = Return scraped /\
       log (scrapeAndSaveCharacters (Return scraped) p).2
         = log p ++ DeleteCharacters :: (InsertCharacter <$> scraped) /\
       length ids = length scraped /\
       NoDup ids /\
       (forall id, id ∈ ids -> id ∉ dom (characters p)) /\
       map_to_list (characters (scrapeAndSaveCharacters (Return scraped) p).2)
         ≡ₚ zip ids scraped).
Proof.
  split; [done |]. split; [done |].
  intros scraped Hne Hdel Hacc Hwf.
  unfold scrapeAndSaveCharacters.
  destruct scraped as [|c cs]; [done |]. cbn [length Nat.eqb].
  rewrite (pool_query_accepted DeleteCharacters p Hdel eq_refl).
  cbn [run_statement fst snd].
  destruct (insert_characters_accepted (c :: cs)
              (with_characters ∅ (logged DeleteCharacters p)) Hacc)
    as (ids & -> & Hlen & Hnd & Hnew).
  cbn [fst snd log characters with_characters logged issued] in *.
  exists ids. split; [done |]. split; [by rewrite <- app_assoc |].
  split; [done |]. split; [done |]. split.
  - intros id Hin Hdom. apply (Hnew id Hin). by apply Hwf.
  - rewrite (right_id_L ∅ (∪)). apply map_to_list_to_map.
    by rewrite fst_zip by lia.
Qed.

Lemma scrapeAndSaveCharacters_full_replace_witness :
  scrapeAndSaveCharacters (Return []) Sample.roster = (Return [], Sample.roster) /\
  exists ids : list string,
    length ids = 2%nat /\
    map_to_list (characters
      (scrapeAndSaveCharacters (Return [Sample.zoro; Sample.luffy]) Sample.roster).2)
    ≡ₚ zip ids [Sample.zoro; Sample.luffy].
Proof.
  destruct (scrapeAndSaveCharacters_full_replace Sample.roster) as (_ & Hempty & Hfull).
  split; [exact Hempty |].
  destruct (Hfull [Sample.zoro; Sample.luffy]) as (ids & _ & _ & Hlen & _ & _ & Hrows).
  - discriminate.
  - reflexivity.
  - reflexivity.
  - apply (bool_decide_unpack _). by vm_compute.
  - exists ids. split; [exact Hlen | exact Hrows].
Defined.

(** ** ImageBackfiller *)

Lemma update_image_eq wiki delay row p :
  update_image wiki delay row p =
    (classify wiki (refuses p) row, row_effect wiki p row,
     row_events wiki (refuses p) delay row).
Proof.
  unfold update_image, row_effect, row_events, classify.
  destruct (scrapeCharacterImage wiki (first_name row.2)) as [imageUrl|]; [| reflexivity].
  unfold pool_query. cbn [refuses logged well_typed negb orb].
  rewrite orb_false_r.
  by destruct (refuses p (UpdateImagePath imageUrl row.1)).
Qed.

Lemma row_effect_refuses wiki p row : refuses (row_effect wiki p row) = refuses p.
Proof.
  unfold row_effect. destruct (scrapeCharacterImage _ _); [| done].
  unfold pool_query. by destruct (_ || _).
Qed.

(** The loop body touches at most the record of its row, and only when the
    row is classified Updated. *)
Lemma row_effect_lookup wiki p row id :
  (row.1 = id -> classify wiki (refuses p) row <> Updated) ->
  characters (row_effect wiki p row) !! id = characters p !! id.
Proof.
  unfold row_effect, classify.
  destruct (scrapeCharacterImage _ _) as [imageUrl|]; [| done].
  unfold pool_query. cbn [refuses logged well_typed negb orb]. rewrite orb_false_r.
  destruct (refuses p (UpdateImagePath imageUrl row.1)); [done |].
  intros Hne. cbn. apply lookup_alter_ne. intros Heq. by apply Hne.
Qed.

Lemma classified_cons wiki refused v row rows :
  classified wiki refused v (row :: rows)
  = ((if decide (classify wiki refused row = v) then 1 else 0)
     + classified wiki refused v rows)%Z.
Proof.
  unfold classified. rewrite filter_cons.
  destruct (decide (classify wiki refused row = v)); cbn [length]; lia.
Qed.

(** The loop of [updateCharacterImages]: it runs through all the rows; each
    row adds one to the counter of its verdict. *)
Lemma update_images_eq wiki delay rows : forall updated skipped failed p,
  update_images wiki delay rows updated skipped failed p =
    ((updated + classified wiki (refuses p) Updated rows)%Z,
     (skipped + classified wiki (refuses p) Skipped rows)%Z,
     (failed + classified wiki (refuses p) Failed rows)%Z,
     foldl (row_effect wiki) p rows,
     rows ≫= row_events wiki (refuses p) delay).
Proof.
  induction rows as [|row rows IH]; intros updated skipped failed p.
  - cbn. unfold classified. cbn. by rewrite !Z.add_0_r.
  - cbn [update_images]. rewrite update_image_eq.
    rewrite !classified_cons.
    destruct (classify wiki (refuses p) row) eqn:Hv; rewrite IH, row_effect_refuses;
      cbn [foldl mbind list_bind]; repeat case_decide; try done;
      by rewrite ?Z.add_0_l, ?Z.add_assoc.
Qed.

Lemma backfill_refuses wiki rows : forall p,
  refuses (foldl (row_effect wiki) p rows) = refuses p.
Proof.
  induction rows as [|row rows IH]; intros p; [done |].
  cbn [foldl]. by rewrite IH, row_effect_refuses.
Qed.

(** A record is as it was after the batch unless a row of its own is
    classified Updated. *)
Lemma backfill_lookup wiki rows id : forall p,
  (forall row, row ∈ rows -> row.1 = id -> classify wiki (refuses p) row <> Updated) ->
  characters (foldl (row_effect wiki) p rows) !! id = characters p !! id.
Proof.
  induction rows as [|row rows IH]; intros p Hrows; [done |].
  cbn [foldl]. rewrite IH.
  - apply row_effect_lookup. apply Hrows. by left.
  - intros row' Hin Hid. rewrite row_effect_refuses. apply Hrows; [by right | done].
Qed.

(** Every row has one verdict. *)
Lemma classified_total wiki refused rows :
  (classified wiki refused Updated rows + classified wiki refused Skipped rows
   + classified wiki refused Failed rows)%Z = Z.of_nat (length rows).
Proof.
  induction rows as [|row rows IH]; [done |].
  rewrite !classified_cons. cbn [length].
  destruct (classify wiki refused row); repeat case_decide; try done; lia.
Qed.

Lemma row_events_fetched wiki refused delay rows :
  fetched (rows ≫= row_events wiki refused delay) = (fun row => first_name row.2) <$> rows.
Proof.
  induction rows as [|row rows IH]; [done |].
  cbn [mbind list_bind fmap list_fmap]. unfold fetched in *.
  rewrite omap_app, IH. unfold row_events. by destruct (delay >? 0)%Z.
Qed.

Lemma row_events_waits wiki refused delay rows :
  waits (rows ≫= row_events wiki refused delay)
  = if (delay >? 0)%Z then replicate (length rows) delay else [].
Proof.
  induction rows as [|row rows IH]; [by destruct (delay >? 0)%Z |].
  cbn [mbind list_bind]. unfold waits in *.
  rewrite omap_app, IH. unfold row_events. by destruct (delay >? 0)%Z.
Qed.

Lemma row_events_console wiki refused delay rows row :
  row ∈ rows ->
  Console (classify wiki refused row) (first_name row.2)
    ∈ rows ≫= row_events wiki refused delay.
Proof.
  intros Hin. apply list_elem_of_bind. exists row. split; [| done].
  unfold row_events. apply elem_of_app. right. set_solver.
Qed.

(** The rows of the SELECT are the records of the table, once each. *)
Lemma elem_of_roster_rows p id c :
  (id, c) ∈ roster_rows p <-> characters p !! id = Some c.
Proof.
  unfold roster_rows. rewrite merge_sort_Permutation. apply elem_of_map_to_list.
Qed.

Lemma roster_rows_key p row id c :
  row ∈ roster_rows p -> row.1 = id -> characters p !! id = Some c -> row = (id, c).
Proof.
  destruct row as [id' c']. cbn. intros Hin -> Hc.
  apply elem_of_roster_rows in Hin. congruence.
Qed.

Lemma roster_rows_length p : length (roster_rows p) = size (characters p).
Proof.
  unfold roster_rows. rewrite merge_sort_Permutation. by rewrite length_map_to_list.
Qed.

(** [updateCharacterImages] when the SELECT is accepted: it returns, with
    the counts of the verdicts of the rows. *)
Lemma updateCharacterImages_eq wiki p delay :
  refuses p SelectCharactersByFirstName = false ->
  Scraper.updateCharacterImages wiki p delay =
    (Return {| total := Z.of_nat (length (roster_rows p));
               updated := classified wiki (refuses p) Updated (roster_rows p);
               skipped := classified wiki (refuses p) Skipped (roster_rows p);
               failed := classified wiki (refuses p) Failed (roster_rows p) |},
     foldl (row_effect wiki) (logged SelectCharactersByFirstName p) (roster_rows p),
     roster_rows p ≫= row_events wiki (refuses p) (default 1000%Z delay)).
Proof.
  intros Hacc. unfold Scraper.updateCharacterImages.
  rewrite (pool_query_accepted SelectCharactersByFirstName p Hacc eq_refl).
  cbn [run_statement fst snd]. fold (roster_rows p).
  change (merge_sort _ _) with (roster_rows p).
  rewrite update_images_eq. cbn [refuses logged]. by rewrite !Z.add_0_l.
Qed.

Lemma updateCharacterImages_refused wiki p delay :
  refuses p SelectCharactersByFirstName = true ->
  Scraper.updateCharacterImages wiki p delay =
    (Throw "query failed", logged SelectCharactersByFirstName p, []).
Proof.
  intros Href. unfold Scraper.updateCharacterImages.
  by rewrite (pool_query_refused _ p Href).
Qed.

(** C7 (amended). A backfill whose SELECT the storage accepts returns a
    summary: it fetches the page of every entity of the roster, in order,
    whatever happened on the entities before it. An entity whose page fetch
    or parse errors is classified Skipped, not Failed, with no mutation of
    its record, and is counted by the skipped counter; an entity whose image
    was found and whose UPDATE the storage refuses is classified Failed,
    with no mutation of its record, and is counted by the failed counter. *)
Theorem backfill_failure_does_not_abort wiki p delay :
  refuses p SelectCharactersByFirstName = false ->
  exists s p' events,
    Scraper.updateCharacterImages wiki p delay = (Return s, p', events) /\
    total s = Z.of_nat (size (characters p)) /\
    fetched events = (fun row => first_name row.2) <$> roster_rows p /\
    skipped s = classified wiki (refuses p) Skipped (roster_rows p) /\
    failed s = classified wiki (refuses p) Failed (roster_rows p) /\
    forall id c, characters p !! id = Some c ->
      Console (classify wiki (refuses p) (id, c)) (first_name c) ∈ events /\
      (forall message, wiki (first_name c) = PageError message ->
         classify wiki (refuses p) (id, c) = Skipped /\
         characters p' !! id = Some c) /\
      (forall imageUrl,
         scrapeCharacterImage wiki (first_name c) = Some imageUrl ->
         refuses p (UpdateImagePath imageUrl id) = true ->
         classify wiki (refuses p) (id, c) = Failed /\
         characters p' !! id = Some c).
Proof.
  intros Hacc. eexists _, _, _.
  split; [apply (updateCharacterImages_eq wiki p delay Hacc) |].
  cbn [total skipped failed].
  split; [by rewrite roster_rows_length |].
  split; [apply row_events_fetched |].
  split; [done |]. split; [done |].
  intros id c Hc.
  assert (forall v, v <> Updated -> classify wiki (refuses p) (id, c) = v ->
            characters (foldl (row_effect wiki) (logged SelectCharactersByFirstName p)
                          (roster_rows p)) !! id = Some c) as Hkept.
  { intros v Hv Hclass. rewrite backfill_lookup; [done |].
    intros row Hin Hid. rewrite (roster_rows_key p row id c Hin Hid Hc).
    cbn [refuses logged]. congruence. }
  split; [| split].
  - apply (row_events_console wiki (refuses p) _ (roster_rows p) (id, c)).
    by apply elem_of_roster_rows.
  - intros message Hpage.
    assert (classify wiki (refuses p) (id, c) = Skipped) as Hclass.
    { unfold classify, scrapeCharacterImage. cbn [snd]. by rewrite Hpage. }
    split; [done |]. by apply (Hkept Skipped).
  - intros imageUrl Himg Href.
    assert (classify wiki (refuses p) (id, c) = Failed) as Hclass.
    { unfold classify. cbn [fst snd]. by rewrite Himg, Href. }
    split; [done |]. by apply (Hkept Failed).
Qed.

Lemma backfill_failure_does_not_abort_witness :
  exists s p' events,
    Scraper.updateCharacterImages Sample.wiki Sample.roster (Some 0%Z) = (Return s, p', events) /\
    total s = 2%Z /\
    fetched events = ["Monkey D. Luffy"; "Roronoa Zoro"].
Proof.
  destruct (backfill_failure_does_not_abort Sample.wiki Sample.roster (Some 0%Z) eq_refl)
    as (s & p' & events & Hrun & Htotal & Hfetched & _).
  exists s, p', events. split; [exact Hrun |]. split; [exact Htotal | exact Hfetched].
Defined.

(** C7, as stated, fails: Luffy's page cannot be fetched, and the batch
    counts him as skipped; the failed counter stays at 0. *)
Lemma page_error_is_skipped_counterexample :
  Sample.wiki "Monkey D. Luffy" = PageError "Request failed with status code 503" /\
  (Scraper.updateCharacterImages Sample.wiki Sample.roster (Some 0%Z)).1.1
    = Return {| total := 2; updated := 1; skipped := 1; failed := 0 |} /\
  (Scraper.updateCharacterImages Sample.wiki Sample.roster (Some 0%Z)).2
    = [Fetch "Monkey D. Luffy"; Console Skipped "Monkey D. Luffy";
       Fetch "Roronoa Zoro"; Console Updated "Roronoa Zoro"].
Proof. repeat split; by vm_compute. Qed.

(** C8. For every completed backfill, the total of the summary is the sum
    of its updated, skipped and failed counts, each entity being counted by
    the counter of its one verdict; and every entity for which no image is
    found is classified Skipped and its record, image_path included, is as
    it was. *)
Theorem backfill_summary_partition wiki p delay s p' events :
  Scraper.updateCharacterImages wiki p delay = (Return s, p', events) ->
  total s = (updated s + skipped s + failed s)%Z /\
  updated s = classified wiki (refuses p) Updated (roster_rows p) /\
  skipped s = classified wiki (refuses p) Skipped (roster_rows p) /\
  failed s = classified wiki (refuses p) Failed (roster_rows p) /\
  forall id c,
    characters p !! id = Some c ->
    scrapeCharacterImage wiki (first_name c) = None ->
    classify wiki (refuses p) (id, c) = Skipped /\
    Console Skipped (first_name c) ∈ events /\
    characters p' !! id = Some c /\
    image_path <$> characters p' !! id = Some (image_path c).
Proof.
  intros Hrun.
  destruct (refuses p SelectCharactersByFirstName) eqn:Hacc.
  { by rewrite (updateCharacterImages_refused wiki p delay Hacc) in Hrun. }
  rewrite (updateCharacterImages_eq wiki p delay Hacc) in Hrun.
  injection Hrun as <- <- <-. cbn [total updated skipped failed].
  split; [by rewrite classified_total |].
  split; [done |]. split; [done |]. split; [done |].
  intros id c Hc Hnone.
  assert (classify wiki (refuses p) (id, c) = Skipped) as Hclass.
  { unfold classify. cbn [snd]. by rewrite Hnone. }
  assert (characters (foldl (row_effect wiki) (logged SelectCharactersByFirstName p)
                        (roster_rows p)) !! id = Some c) as Hkept.
  { rewrite backfill_lookup; [done |].
    intros row Hin Hid. rewrite (roster_rows_key p row id c Hin Hid Hc).
    cbn [refuses logged]. congruence. }
  split; [done |]. split; [| split; [done | by rewrite Hkept]].
  rewrite <- Hclass.
  apply (row_events_console wiki (refuses p) _ (roster_rows p) (id, c)).
  by apply elem_of_roster_rows.
Qed.

Lemma backfill_summary_partition_witness :
  (2 = 1 + 1 + 0)%Z /\
  image_path <$> characters
    (Scraper.updateCharacterImages Sample.wiki Sample.roster (Some 0%Z)).1.2 !! "a1"
  = Some None.
Proof.
  destruct (backfill_summary_partition Sample.wiki Sample.roster (Some 0%Z)
              {| total := 2; updated := 1; skipped := 1; failed := 0 |}
              (Scraper.updateCharacterImages Sample.wiki Sample.roster (Some 0%Z)).1.2
              (Scraper.updateCharacterImages Sample.wiki Sample.roster (Some 0%Z)).2)
    as (Htotal & _ & _ & _ & Hskipped).
  - by vm_compute.
  - split; [exact Htotal |].
    destruct (Hskipped "a1" Sample.luffy) as (_ & _ & _ & Himage); [by vm_compute .. |].
    exact Himage.
Defined.

(** *** The delay between requests *)

(** The backfill waits [delay] before each fetch when [delay] is positive,
    and does not wait otherwise; with no delay given it waits 1000 ms. *)
Lemma backfill_waits wiki p delay :
  refuses p SelectCharactersByFirstName = false ->
  (Scraper.updateCharacterImages wiki p delay).2
    = roster_rows p ≫= (fun row =>
        (if (default 1000 delay >? 0)%Z then [Sleep (default 1000%Z delay)] else [])
        ++ [Fetch (first_name row.2);
            Console (classify wiki (refuses p) row) (first_name row.2)]) /\
  waits (Scraper.updateCharacterImages wiki p delay).2
    = if (default 1000 delay >? 0)%Z
      then replicate (size (characters p)) (default 1000%Z delay) else [].
Proof.
  intros Hacc. rewrite (updateCharacterImages_eq wiki p delay Hacc). cbn [snd].
  split; [done |]. by rewrite row_events_waits, roster_rows_length.
Qed.

Lemma backfill_delay_zero wiki p :
  waits (Scraper.updateCharacterImages wiki p (Some 0%Z)).2 = [].
Proof.
  destruct (refuses p SelectCharactersByFirstName) eqn:Hacc.
  - by rewrite (updateCharacterImages_refused wiki p _ Hacc).
  - by rewrite (proj2 (backfill_waits wiki p (Some 0%Z) Hacc)).
Qed.

(** The route hands the backfill the delay of the query string when
    [parseInt] reads a number other than 0 from it, and 1000 otherwise. *)
Lemma delay_of_query_cases (delay : option string) :
  (JS.parseInt delay = Some (delay_of_query delay) /\ delay_of_query delay <> 0%Z) \/
  ((JS.parseInt delay = None \/ JS.parseInt delay = Some 0%Z) /\
   delay_of_query delay = 1000%Z).
Proof.
  unfold delay_of_query, JS.or_number.
  destruct (JS.parseInt delay) as [n|]; [| right; by split; [left |]].
  destruct (Z.eqb_spec n 0) as [->|Hn]; [right; by split; [right |] | by left].
Qed.

Example delay_of_query_absent : delay_of_query None = 1000%Z.
Proof. reflexivity. Qed.

Example delay_of_query_250 : delay_of_query (Some "250") = 250%Z.
Proof. reflexivity. Qed.

(** C9 (the route against the claim). With delay=0 in the query string the
    route does not hand 0 to the backfill: [parseInt("0") || 1000] is 1000,
    and the backfill waits 1000 ms before each fetch. No query string makes
    the delay 0, while the backfill called with 0 itself does not wait. *)
Theorem delay_zero_still_waits :
  delay_of_query (Some "0") = 1000%Z /\
  (forall delay, delay_of_query delay <> 0%Z) /\
  (Index.updateCharacterImages Sample.wiki (Some "0") Sample.roster).2
    = [Sleep 1000; Fetch "Monkey D. Luffy"; Console Skipped "Monkey D. Luffy";
       Sleep 1000; Fetch "Roronoa Zoro"; Console Updated "Roronoa Zoro"] /\
  (Scraper.updateCharacterImages Sample.wiki Sample.roster (Some 0%Z)).2
    = [Fetch "Monkey D. Luffy"; Console Skipped "Monkey D. Luffy";
       Fetch "Roronoa Zoro"; Console Updated "Roronoa Zoro"].
Proof.
  split; [reflexivity |]. split.
  - intros delay. destruct (delay_of_query_cases delay) as [[_ ?]|[_ ->]]; [done | discriminate].
  - split; by vm_compute.
Qed.

(** * Further properties *)

(** ** ChangeAccumulator: symmetry, streaks and bounds *)

(** X1. The merge is odd: merging the opposite delta into the opposite
    trend gives the opposite result, so gains and losses are treated
    alike. *)
Theorem calculateChange_opposite (d t : Z) :
  calculateChange (- d) (- t) = (- calculateChange d t)%Z.
Proof.
  destruct (calculateChange_cases d t) as [[Hc ->]|[Hn ->]];
    destruct (calculateChange_cases (- d) (- t)) as [[Hc' ->]|[Hn' ->]];
    unfold sign_compatible in *; lia.
Qed.

Lemma trend_cons (t d : Z) (ds : list Z) :
  trend t (d :: ds) = trend (calculateChange d t) ds.
Proof. reflexivity. Qed.

(** X2. A streak accumulates: when the stored trend and all the deltas of
    a run have the same sign (zero allowed), the trend after the run is the
    prior trend plus the sum of the deltas. *)
Theorem trend_streak (t : Z) (ds : list Z) :
  ((0 <= t)%Z /\ Forall (fun d => (0 <= d)%Z) ds) \/
  ((t <= 0)%Z /\ Forall (fun d => (d <= 0)%Z) ds) ->
  trend t ds = (t + sum_list ds)%Z.
Proof.
  revert t. induction ds as [|d ds IH]; intros t H.
  - cbn. lia.
  - rewrite trend_cons.
    assert (sign_compatible d t) as Hc.
    { unfold sign_compatible.
      destruct H as [[Ht Hds]|[Ht Hds]]; apply Forall_cons in Hds as [Hd _]; lia. }
    destruct (calculateChange_cases d t) as [[_ ->]|[Hn _]]; [| tauto].
    rewrite IH; [unfold sum_list; cbn [foldr]; lia |].
    destruct H as [[Ht Hds]|[Ht Hds]]; apply Forall_cons in Hds as [Hd Hds];
      [left | right]; split; (lia || done).
Qed.

Lemma trend_streak_witness :
  trend 5 [16; 0; 8]%Z = (5 + sum_list [16; 0; 8]%Z)%Z.
Proof.
  apply (trend_streak 5 [16; 0; 8]%Z). left. split; [lia |].
  repeat constructor; lia.
Defined.

(** X3. A delta against the trend wipes it: after a delta of the sign
    opposite to the stored trend, the trend is the one a record with no
    history would have, whatever was accumulated before. *)
Theorem trend_reset (t d : Z) (ds : list Z) :
  (0 < t /\ d < 0)%Z \/ (t < 0 /\ 0 < d)%Z ->
  trend t (d :: ds) = trend 0 (d :: ds).
Proof.
  intros H. rewrite !trend_cons. f_equal.
  destruct (calculateChange_cases d t) as [[Hc _]|[_ ->]];
    destruct (calculateChange_cases d 0) as [[_ ->]|[Hn _]];
    unfold sign_compatible in *; lia.
Qed.

Lemma trend_reset_witness : trend 40 [-8; -4]%Z = trend 0 [-8; -4]%Z.
Proof. apply (trend_reset 40 (-8) [-4]%Z). left. lia. Defined.

(** X4. The trend never exceeds, in magnitude, the prior trend and the
    deltas put together. *)
Theorem trend_bounded (t : Z) (ds : list Z) :
  (Z.abs (trend t ds) <= Z.abs t + sum_list (Z.abs <$> ds))%Z.
Proof.
  revert t. induction ds as [|d ds IH]; intros t; [cbn; lia |].
  rewrite trend_cons. specialize (IH (calculateChange d t)).
  unfold sum_list in *. cbn [fmap list_fmap foldr].
  assert (Z.abs (calculateChange d t) <= Z.abs t + Z.abs d)%Z; [| lia].
  destruct (calculateChange_cases d t) as [[_ ->]|[_ ->]]; lia.
Qed.

(** ** RatingLedger: validation, outcomes and frame *)

(** X5. With a non-blank id and the four fields present, a field that is
    not a number makes the handler answer 400 "All change values must be
    numbers", before any look at extra fields and without a statement. *)
Theorem updateCharacterElo_non_numeric id body p k :
  ~ blank id ->
  (forall f, In f allowedFields -> get body f <> None) ->
  In k allowedFields ->
  get body k = Some JNotNumeric ->
  updateCharacterElo id body p =
    (mkResponse 400 [("error", JsonString "Invalid input");
                     ("message", JsonString "All change values must be numbers")], p).
Proof.
  intros Hid Hall Hk Hnan. unfold updateCharacterElo.
  rewrite (id_check_passes id Hid).
  assert (forall f, In f allowedFields -> is_undefined (get body f) = false) as Hdef.
  { intros f Hf. specialize (Hall f Hf). by destruct (get body f). }
  rewrite !Hdef by (cbn; tauto). cbn [orb].
  assert (isNaN (get body "wins_change") || isNaN (get body "losses_change")
          || isNaN (get body "elo_change") || isNaN (get body "recent_change") = true)
    as ->; [| done].
  cbn in Hk. destruct Hk as [<-|[<-|[<-|[<-|[]]]]]; rewrite Hnan; cbn;
    rewrite ?orb_true_r; done.
Qed.

Lemma updateCharacterElo_non_numeric_witness :
  updateCharacterElo "a1"
    [("wins_change", JNumber 1); ("losses_change", JNotNumeric);
     ("elo_change", JNumber 16); ("recent_change", JNumber 5); ("foo", JNumber 0)]
    Sample.roster
  = (mkResponse 400 [("error", JsonString "Invalid input");
                     ("message", JsonString "All change values must be numbers")],
     Sample.roster).
Proof.
  apply (updateCharacterElo_non_numeric "a1" _ Sample.roster "losses_change").
  - exact not_blank_a1.
  - intros f Hf. cbn in Hf. destruct Hf as [<-|[<-|[<-|[<-|[]]]]]; discriminate.
  - cbn. tauto.
  - reflexivity.
Defined.

(** What the handler does to the pool: nothing, or its one UPDATE. *)
Lemma updateCharacterElo_pool id body p :
  (updateCharacterElo id body p).2 = p \/
  exists q, (updateCharacterElo id body p).2 = (pool_query q p).2 /\
            exists w l e r, q = UpdateElo w l e r id.
Proof.
  unfold updateCharacterElo.
  destruct (_ || _); [by left |].
  destruct (_ || _); [by left |].
  destruct (_ || _); [by left |].
  destruct (0 <? _)%nat; [by left |].
  right. match goal with |- context [pool_query ?q p] => exists q end.
  split; [| by eexists _, _, _, _].
  destruct (pool_query _ p) as [[message|[|[rid c] rows]] p']; done.
Qed.

(** X6. Whatever the request, the handler answers 200, 400, 404 or 500; a
    400 leaves the pool untouched, not even a statement is sent; every
    answer but 200 leaves the table as it was; and 200 is only answered
    for an id that a record has. *)
Theorem updateCharacterElo_outcomes id body p :
  (status (updateCharacterElo id body p).1 = 200%Z \/
   status (updateCharacterElo id body p).1 = 400%Z \/
   status (updateCharacterElo id body p).1 = 404%Z \/
   status (updateCharacterElo id body p).1 = 500%Z) /\
  (status (updateCharacterElo id body p).1 = 400%Z ->
     (updateCharacterElo id body p).2 = p) /\
  (status (updateCharacterElo id body p).1 <> 200%Z ->
     characters (updateCharacterElo id body p).2 = characters p) /\
  (status (updateCharacterElo id body p).1 = 200%Z ->
     is_Some (characters p !! id)).
Proof.
  unfold updateCharacterElo.
  destruct (_ || _); [cbn; intuition congruence |].
  destruct (_ || _); [cbn; intuition congruence |].
  destruct (_ || _); [cbn; intuition congruence |].
  destruct (0 <? _)%nat; [cbn; intuition congruence |].
  unfold pool_query. cbn [refuses logged well_typed negb]. rewrite orb_false_r.
  destruct (refuses p _); [cbn; intuition congruence |].
  cbn [run_statement]. unfold returning.
  destruct (characters p !! id) as [c|] eqn:Hc; cbn; rewrite ?Hc; cbn.
  - intuition (congruence || eauto).
  - rewrite alter_alt, Hc. intuition congruence.
Qed.

(** X7. The handler never adds or removes a record, never changes a record
    other than the one of its id, and of that one never changes the name,
    the title, the image or the rank. *)
Theorem updateCharacterElo_frame id body p id' :
  match characters p !! id' with
  | Some c =>
      exists c', characters (updateCharacterElo id body p).2 !! id' = Some c' /\
                 same_identity c c' /\ (id' <> id -> c' = c)
  | None => characters (updateCharacterElo id body p).2 !! id' = None
  end.
Proof.
  destruct (updateCharacterElo_pool id body p) as [->|(q & -> & w & l & e & r & ->)].
  { destruct (characters p !! id') as [c|]; [| done]. exists c. by repeat split. }
  unfold pool_query. cbn [refuses logged well_typed negb]. rewrite orb_false_r.
  destruct (refuses p _).
  { cbn. destruct (characters p !! id') as [c|]; [| done]. exists c. by repeat split. }
  cbn. rewrite lookup_alter. case_decide as Hid.
  - subst id'. destruct (characters p !! id) as [c|]; [| done].
    exists (add_elo w l e r c). by repeat split.
  - destruct (characters p !! id') as [c|]; [| done]. exists c. by repeat split.
Qed.

(** X8. When the storage refuses the UPDATE of a valid request, the
    handler answers 500 "Database error" with a fixed message, and the
    table is as it was. *)
Theorem updateCharacterElo_storage_error id body p w l e r :
  supplies body w l e r -> ~ blank id ->
  refuses p (UpdateElo w l e (calculateChange e r) id) = true ->
  (updateCharacterElo id body p).1
    = mkResponse 500 [("error", JsonString "Database error");
                      ("message", JsonString "Failed to update character")] /\
  characters (updateCharacterElo id body p).2 = characters p /\
  log (updateCharacterElo id body p).2 = log p ++ [UpdateElo w l e (calculateChange e r) id].
Proof.
  intros Hs Hid Href.
  rewrite (updateCharacterElo_validated id body p w l e r Hs Hid).
  by rewrite (pool_query_refused _ p Href).
Qed.

Lemma updateCharacterElo_storage_error_witness :
  (updateCharacterElo "a1" Sample.deltas Sample.unreachable).1
    = mkResponse 500 [("error", JsonString "Database error");
                      ("message", JsonString "Failed to update character")].
Proof.
  exact (proj1 (updateCharacterElo_storage_error "a1" Sample.deltas Sample.unreachable
                  1 0 16 5 supplies_sample not_blank_a1 eq_refl)).
Defined.

(** ** Concurrent calls: the deltas add up *)

Lemma outstanding_app k (ts1 ts2 : list task) :
  outstanding k (ts1 ++ ts2) = (outstanding k ts1 + outstanding k ts2)%Z.
Proof.
  unfold outstanding, sum_list. induction ts1 as [|t ts1 IH]; [done |].
  cbn [app fmap list_fmap foldr] in *. rewrite IH. lia.
Qed.

Lemma outstanding_quiescent k (ts : list task) : quiescent ts -> outstanding k ts = 0%Z.
Proof.
  unfold outstanding, sum_list. induction 1 as [|[r|resp] ts Ht _ IH]; [done | done |].
  cbn [fmap list_fmap foldr outstanding_delta] in *. lia.
Qed.

(** What holds of the server while calls on the record [id] are handled:
    each rating column and the deltas still outstanding for it add up to the
    same total, and the other columns stay. *)
Lemma deltas_invariant_step (id : string) (c0 : character) (W L E : Z)
    (s s' : pool * list task) :
  ~ blank id ->
  step s s' ->
  (forall w l e r, refuses s.1 (UpdateElo w l e r id) = false) ->
  Forall (fun t => match t with Pending r => well_formed_call id r | Answered _ => True end) s.2 ->
  (exists c, characters s.1 !! id = Some c /\ same_identity c0 c /\
     (wins c + outstanding "wins_change" s.2 = W)%Z /\
     (losses c + outstanding "losses_change" s.2 = L)%Z /\
     (elo c + outstanding "elo_change" s.2 = E)%Z) ->
  (forall w l e r, refuses s'.1 (UpdateElo w l e r id) = false) /\
  Forall (fun t => match t with Pending r => well_formed_call id r | Answered _ => True end) s'.2 /\
  (exists c, characters s'.1 !! id = Some c /\ same_identity c0 c /\
     (wins c + outstanding "wins_change" s'.2 = W)%Z /\
     (losses c + outstanding "losses_change" s'.2 = L)%Z /\
     (elo c + outstanding "elo_change" s'.2 = E)%Z).
Proof.
  intros Hid [p before r after]. cbn [fst snd].
  intros Hacc Hall (c & Hc & Hsame & HW & HL & HE).
  apply Forall_app in Hall as [Hbefore Hall].
  apply Forall_cons in Hall as [(Hrid & w & l & e & rc & Hs) Hafter].
  rewrite Hrid.
  rewrite (updateCharacterElo_applied id (body r) p w l e rc Hs Hid (Hacc _ _ _ _)).
  cbn [fst snd refuses characters].
  split; [exact Hacc |]. split.
  - apply Forall_app. split; [done |]. by apply Forall_cons.
  - exists (add_elo w l e (calculateChange e rc) c). split.
    + rewrite lookup_alter. rewrite decide_True by done. by rewrite Hc.
    + destruct Hs as (Hw & Hl & He & _).
      rewrite !outstanding_app in *. unfold outstanding, sum_list in *.
      cbn [fmap list_fmap foldr outstanding_delta add_elo wins losses elo] in *.
      rewrite Hw, Hl, He in *. cbn [number_of] in *.
      split; [exact Hsame |]. repeat split; lia.
Qed.

(** X9. Concurrent calls on one record add up whatever their order: when
    any number of well-formed calls on the record of a non-blank id, that
    the storage accepts, have all been answered, its wins, losses and elo
    are the prior values plus the sums of the deltas of the calls, and its
    other columns but recent_change are as before. *)
Theorem concurrent_deltas_add_up (id : string) (p : pool) (c : character)
    (reqs : list request) :
  ~ blank id ->
  characters p !! id = Some c ->
  (forall w l e r, refuses p (UpdateElo w l e r id) = false) ->
  Forall (well_formed_call id) reqs ->
  forall p' ts',
    rtc step (p, Pending <$> reqs) (p', ts') -> quiescent ts' ->
    exists c', characters p' !! id = Some c' /\ same_identity c c' /\
      wins c' = (wins c + sum_list ((fun r => number_of (get (body r) "wins_change")) <$> reqs))%Z /\
      losses c' = (losses c + sum_list ((fun r => number_of (get (body r) "losses_change")) <$> reqs))%Z /\
      elo c' = (elo c + sum_list ((fun r => number_of (get (body r) "elo_change")) <$> reqs))%Z.
Proof.
  intros Hid Hc Hacc Hreqs p' ts' Hsteps Hq.
  assert (forall k, outstanding k (Pending <$> reqs)
                    = sum_list ((fun r => number_of (get (body r) k)) <$> reqs)) as Hout.
  { intros k. unfold outstanding. by rewrite <- list_fmap_compose. }
  rewrite <- !Hout.
  remember (p, Pending <$> reqs) as s eqn:Hs.
  remember (p', ts') as s' eqn:Hs'.
  assert ((forall w l e r, refuses s.1 (UpdateElo w l e r id) = false) /\
          Forall (fun t => match t with Pending r => well_formed_call id r
                                   | Answered _ => True end) s.2 /\
          exists c', characters s.1 !! id = Some c' /\ same_identity c c' /\
            (wins c' + outstanding "wins_change" s.2
             = wins c + outstanding "wins_change" (Pending <$> reqs))%Z /\
            (losses c' + outstanding "losses_change" s.2
             = losses c + outstanding "losses_change" (Pending <$> reqs))%Z /\
            (elo c' + outstanding "elo_change" s.2
             = elo c + outstanding "elo_change" (Pending <$> reqs))%Z) as Hinv.
  { subst s. cbn [fst snd]. split; [exact Hacc |]. split.
    - apply Forall_fmap. eapply Forall_impl; [exact Hreqs | done].
    - exists c. by repeat split. }
  clear Hs. revert Hinv.
  induction Hsteps as [s|s1 s2 s3 H12 _ IH]; intros (Hacc' & Hall & Hinv).
  - subst s. cbn [fst snd] in Hinv. destruct Hinv as (c' & Hc' & Hsame & HW & HL & HE).
    rewrite !(outstanding_quiescent _ ts' Hq) in *.
    exists c'. repeat split; first [done | apply Hsame | lia].
  - apply (IH Hs').
    exact (deltas_invariant_step id c _ _ _ s1 s2 Hid H12 Hacc' Hall Hinv).
Qed.

Lemma well_formed_sample : Forall (well_formed_call "a1") Sample.calls.
Proof.
  repeat constructor; cbn; try (eexists _, _, _, _); repeat split; try reflexivity;
    cbn; intros k; tauto.
Defined.

Lemma concurrent_deltas_add_up_witness :
  exists c', characters (serve Sample.roster (Pending <$> Sample.calls)).1 !! "a1" = Some c' /\
    wins c' = 2%Z /\ elo c' = 1008%Z.
Proof.
  destruct (concurrent_deltas_add_up "a1" Sample.roster Sample.luffy Sample.calls
              not_blank_a1 eq_refl (fun _ _ _ _ => eq_refl) well_formed_sample
              (serve Sample.roster (Pending <$> Sample.calls)).1
              (serve Sample.roster (Pending <$> Sample.calls)).2)
    as (c' & Hc' & _ & Hw & _ & He).
  - rewrite <- surjective_pairing. apply serve_steps.
  - apply serve_quiescent.
  - exists c'. split; [exact Hc' |]. split; [exact Hw | exact He].
Defined.

(** ** The first version of the handler *)

Lemma set_columns_twice w l e r (c : character) :
  set_columns w l e r (set_columns w l e r c) = set_columns w l e r c.
Proof.
  unfold set_columns, assigned. cbn.
  by destruct w, l, e, r.
Qed.

Lemma legacy_pool id body p :
  (Legacy.updateCharacterElo id body p).2 = p \/
  exists w l e r,
    Legacy.updateCharacterElo id body p =
      (let '(res, p') := pool_query (UpdateSet w l e r id) p in
       (match res with
        | QueryError message =>
            mkResponse 500 [("error", JsonString "Failed to update character");
                            ("message", JsonString message)]
        | QueryRows [] =>
            mkResponse 404 [("error", JsonString "Character not found");
                            ("message", JsonString ("No character found with id: " +:+ id))]
        | QueryRows ((rid, c) :: _) =>
            mkResponse 200 [("message", JsonString "Character ELO updated successfully");
                            ("character", JsonCharacter rid c)]
        end, p')) /\
    (Legacy.updateCharacterElo id body (pool_query (UpdateSet w l e r id) p).2
     = (let '(res, p') := pool_query (UpdateSet w l e r id)
                            (pool_query (UpdateSet w l e r id) p).2 in
        (match res with
         | QueryError message =>
             mkResponse 500 [("error", JsonString "Failed to update character");
                             ("message", JsonString message)]
         | QueryRows [] =>
             mkResponse 404 [("error", JsonString "Character not found");
                             ("message", JsonString ("No character found with id: " +:+ id))]
         | QueryRows ((rid, c) :: _) =>
             mkResponse 200 [("message", JsonString "Character ELO updated successfully");
                             ("character", JsonCharacter rid c)]
         end, p'))).
Proof.
  unfold Legacy.updateCharacterElo.
  destruct (0 <? _)%nat; [by left |].
  destruct (_ && _); [by left |].
  right. exists (get body "wins"), (get body "losses"), (get body "elo"),
    (get body "recent_change"). split.
  - by destruct (pool_query _ p) as [[message|[|[rid c] rows]] p'].
  - by destruct (pool_query _ (pool_query _ p).2) as [[message|[|[rid c] rows]] p'].
Qed.

(** X10. The first version of the handler overwrites, so it is
    idempotent: sending the same request a second time gives the same answer
    and leaves the table as the first left it. *)
Theorem legacy_idempotent id body p :
  (Legacy.updateCharacterElo id body (Legacy.updateCharacterElo id body p).2).1
    = (Legacy.updateCharacterElo id body p).1 /\
  characters (Legacy.updateCharacterElo id body (Legacy.updateCharacterElo id body p).2).2
    = characters (Legacy.updateCharacterElo id body p).2.
Proof.
  destruct (legacy_pool id body p) as [Hp|(w & l & e & r & H1 & H2)].
  { by rewrite !Hp. }
  rewrite H1.
  destruct (pool_query (UpdateSet w l e r id) p) as [res p1] eqn:Hq1.
  cbn [fst snd] in *. rewrite H2. clear H1 H2.
  unfold pool_query in *. cbn [refuses logged] in *.
  destruct (refuses p (UpdateSet w l e r id) || negb (well_typed (UpdateSet w l e r id)))
    eqn:Href.
  - injection Hq1 as <- <-. cbn [refuses logged]. by rewrite Href.
  - cbn [run_statement] in Hq1. injection Hq1 as <- <-.
    cbn [refuses logged with_characters characters]. rewrite Href.
    cbn [run_statement fst snd with_characters characters logged].
    unfold returning. rewrite lookup_alter, decide_True by done.
    split.
    + destruct (characters p !! id) as [c|]; cbn; [| done].
      by rewrite set_columns_twice.
    + apply map_eq. intros i. rewrite !lookup_alter, (decide_True (P := id = id)) by done.
      destruct (decide (id = i)); [| done].
      destruct (characters p !! id) as [c|]; cbn; [| done].
      by rewrite set_columns_twice.
Qed.

(** ** RosterSynchronizer: when the storage or the listing fails *)

Lemma insert_characters_app (before rest : list character) (p : pool) :
  insert_characters (before ++ rest) p =
    match insert_characters before p with
    | (Return _, p') => insert_characters rest p'
    | (Throw message, p') => (Throw message, p')
    end.
Proof.
  revert p. induction before as [|c before IH]; intros p; [done |].
  cbn [app insert_characters].
  destruct (pool_query (InsertCharacter c) p) as [[message|rows] p']; [done | apply IH].
Qed.

(** X11. The replace is not atomic: when the storage accepts the DELETE and
    the first INSERTs and refuses a later one, the resync throws, the former
    roster is gone, the table holds the entries before the refused one and
    nothing else, and the entries after it are never sent. *)
Theorem scrapeAndSaveCharacters_partial (p : pool) (before after : list character)
    (c : character) :
  refuses p DeleteCharacters = false ->
  (forall c', c' ∈ before -> refuses p (InsertCharacter c') = false) ->
  refuses p (InsertCharacter c) = true ->
  exists ids : list string,
    (scrapeAndSaveCharacters (Return (before ++ c :: after)) p).1 = Throw "query failed" /\
    log (scrapeAndSaveCharacters (Return (before ++ c :: after)) p).2
      = log p ++ DeleteCharacters :: (InsertCharacter <$> before) ++ [InsertCharacter c] /\
    length ids = length before /\
    NoDup ids /\
    map_to_list (characters (scrapeAndSaveCharacters (Return (before ++ c :: after)) p).2)
      ≡ₚ zip ids before.
Proof.
  intros Hdel Hacc Href.
  unfold scrapeAndSaveCharacters.
  destruct (before ++ c :: after) as [|c0 cs] eqn:Hall; [by destruct before |].
  cbn [length Nat.eqb]. rewrite <- Hall. clear c0 cs Hall.
  rewrite (pool_query_accepted DeleteCharacters p Hdel eq_refl).
  cbn [run_statement fst snd].
  rewrite insert_characters_app.
  destruct (insert_characters_accepted before
              (with_characters ∅ (logged DeleteCharacters p)) Hacc)
    as (ids & -> & Hlen & Hnd & _).
  cbn [insert_characters].
  rewrite pool_query_refused by exact Href.
  cbn [fst snd log characters with_characters logged issued].
  exists ids. split; [done |]. split; [by rewrite <- !app_assoc |].
  split; [done |]. split; [done |].
  rewrite (right_id_L ∅ (∪)). apply map_to_list_to_map.
  by rewrite fst_zip by lia.
Qed.

(** X12. When the storage refuses the DELETE of a resync, POST
    /scrape-characters answers 500 and the roster is as it was. *)
Theorem scrapeCharacters_delete_refused (p : pool) (scraped : list character) :
  scraped <> [] ->
  refuses p CreateCharactersTable = false ->
  refuses p DeleteCharacters = true ->
  status (scrapeCharacters (Return scraped) p).1 = 500%Z /\
  characters (scrapeCharacters (Return scraped) p).2 = characters p /\
  log (scrapeCharacters (Return scraped) p).2
    = log p ++ [CreateCharactersTable; DeleteCharacters].
Proof.
  intros Hne Hcreate Hdel.
  unfold scrapeCharacters, DatabaseTools.populateCharacters,
    DatabaseTools.createCharactersTable.
  rewrite (pool_query_accepted CreateCharactersTable p Hcreate eq_refl).
  cbn [run_statement fst snd]. unfold scrapeAndSaveCharacters.
  destruct scraped as [|c cs]; [done |]. cbn [length Nat.eqb].
  rewrite pool_query_refused by exact Hdel.
  cbn. by rewrite <- app_assoc.
Qed.

(** X13. A resync changes nothing unless the listing yields a character:
    when fetching the listing fails the error is passed on, and when no row
    of the listing qualifies the empty result is returned, in both cases
    without a statement sent. *)
Theorem resync_needs_a_character (p : pool) :
  (forall message,
     scrapeAndSaveCharacters (scrapeOnePieceCharacters (Throw message)) p
     = (Throw message, p)) /\
  (forall rows,
     Forall (fun row => scrape_row row = None) rows ->
     scrapeAndSaveCharacters (scrapeOnePieceCharacters (Return rows)) p = (Return [], p)).
Proof.
  split; [done |].
  intros rows Hrows. cbn [scrapeOnePieceCharacters].
  assert (omap scrape_row rows = []) as ->; [| done].
  induction Hrows as [|row rows Hrow _ IH]; [done |].
  cbn. by rewrite Hrow.
Qed.

Lemma scrapeAndSaveCharacters_partial_witness :
  exists ids : list string,
    (scrapeAndSaveCharacters (Return [Sample.luffy; Sample.zoro; Sample.luffy]) Sample.no_zoro).1
      = Throw "query failed" /\
    length ids = 1%nat /\
    map_to_list (characters
      (scrapeAndSaveCharacters (Return [Sample.luffy; Sample.zoro; Sample.luffy])
         Sample.no_zoro).2)
    ≡ₚ zip ids [Sample.luffy].
Proof.
  destruct (scrapeAndSaveCharacters_partial Sample.no_zoro [Sample.luffy] [Sample.luffy]
              Sample.zoro) as (ids & Hthrow & _ & Hlen & _ & Hrows).
  - reflexivity.
  - intros c' Hc'. apply list_elem_of_singleton in Hc'. by rewrite Hc'.
  - reflexivity.
  - exists ids. split; [exact Hthrow |]. split; [exact Hlen | exact Hrows].
Defined.

Lemma scrapeCharacters_delete_refused_witness :
  status (scrapeCharacters (Return [Sample.luffy]) Sample.no_delete).1 = 500%Z /\
  characters (scrapeCharacters (Return [Sample.luffy]) Sample.no_delete).2
    = characters Sample.no_delete.
Proof.
  destruct (scrapeCharacters_delete_refused Sample.no_delete [Sample.luffy])
    as (Hstatus & Htable & _); [discriminate | reflexivity | reflexivity |].
  split; [exact Hstatus | exact Htable].
Defined.

Lemma resync_needs_a_character_witness :
  scrapeAndSaveCharacters (scrapeOnePieceCharacters (Return [mkRow ["Nami"] None]))
    Sample.roster
  = (Return [], Sample.roster).
Proof.
  apply (proj2 (resync_needs_a_character Sample.roster)).
  repeat constructor.
Defined.

(** ** RosterScraper: the names of the listing *)

Lemma trimEnd_head (s : string) (c : ascii) (t : string) :
  JS.trimEnd s = String c t -> exists s', s = String c s'.
Proof.
  destruct s as [|c' s']; cbn; [done |].
  destruct (JS.trimEnd s'); [destruct (JS.is_white_space c') |];
    intros H; inversion H; eauto.
Qed.

Lemma trimEnd_cons (c : ascii) (s : string) :
  JS.trimEnd (String c s) =
    match JS.trimEnd s with
    | EmptyString => if JS.is_white_space c then EmptyString else String c EmptyString
    | t => String c t
    end.
Proof. reflexivity. Qed.

Lemma trimEnd_idem (s : string) : JS.trimEnd (JS.trimEnd s) = JS.trimEnd s.
Proof.
  induction s as [|c s IH]; [done |]. rewrite trimEnd_cons.
  destruct (JS.trimEnd s) as [|c' t] eqn:Ht.
  - destruct (JS.is_white_space c) eqn:Hc; [done |]. cbn. by rewrite Hc.
  - by rewrite trimEnd_cons, IH.
Qed.

Lemma trimStart_fixed (s : string) :
  starts_with_space s = false -> JS.trimStart s = s.
Proof. destruct s as [|c s]; cbn; [done |]. by intros ->. Qed.

Lemma trim_starts (s : string) : starts_with_space (JS.trim s) = false.
Proof.
  unfold JS.trim. destruct (JS.trimEnd (JS.trimStart s)) as [|c t] eqn:Hv; [done |].
  destruct (trimEnd_head _ _ _ Hv) as [u' Hu].
  cbn. by apply trimStart_head in Hu.
Qed.

(** Trimming twice is trimming once. *)
Lemma trim_idem (s : string) : JS.trim (JS.trim s) = JS.trim s.
Proof.
  pose proof (trim_starts s) as Hhead.
  unfold JS.trim in *. rewrite (trimStart_fixed _ Hhead). apply trimEnd_idem.
Qed.

Lemma single_spaced_tail (c : ascii) (s : string) :
  single_spaced (String c s) -> single_spaced s.
Proof. cbn. tauto. Qed.

Lemma single_spaced_trimStart (s : string) :
  single_spaced s -> single_spaced (JS.trimStart s).
Proof.
  induction s as [|c s IH]; [done |]. intros H. cbn [JS.trimStart].
  destruct (JS.is_white_space c); [apply IH, (single_spaced_tail c s H) | done].
Qed.

Lemma single_spaced_trimEnd (s : string) :
  single_spaced s -> single_spaced (JS.trimEnd s).
Proof.
  induction s as [|c s IH]; [done |]. intros H. cbn [JS.trimEnd].
  pose proof (IH (single_spaced_tail c s H)) as IH'.
  destruct (JS.trimEnd s) as [|c' t] eqn:Ht.
  - destruct (JS.is_white_space c) eqn:Hc; [done |]. cbn. rewrite Hc. by repeat split.
  - destruct (trimEnd_head _ _ _ Ht) as [s' ->].
    cbn [single_spaced] in H, IH' |- *. tauto.
Qed.

Lemma collapse_spaces_spaced (s : string) : forall in_run,
  single_spaced (collapse_spaces in_run s) /\
  (in_run = true -> starts_with_space (collapse_spaces in_run s) = false).
Proof.
  induction s as [|c s IH]; intros in_run; [done |].
  cbn [collapse_spaces]. destruct (JS.is_white_space c) eqn:Hc.
  - destruct in_run; [apply IH |].
    destruct (IH true) as [Hs Hhead]. specialize (Hhead eq_refl).
    split; [| done]. cbn [single_spaced]. split; [done |]. split; [| done].
    destruct (collapse_spaces true s); [done |].
    cbn in Hhead. rewrite Hhead. intros [_ ?]. done.
  - destruct (IH false) as [Hs _]. split; [| by cbn].
    cbn [single_spaced]. rewrite Hc. split; [done |]. split; [| done].
    destruct (collapse_spaces false s); [done | intros [? _]; done].
Qed.

(** Text that is single-spaced already is left as it is. *)
Lemma collapse_spaces_fixed (s : string) : forall in_run,
  single_spaced s ->
  (in_run = true -> starts_with_space s = false) ->
  collapse_spaces in_run s = s.
Proof.
  induction s as [|c s IH]; intros in_run Hs Hhead; [done |].
  cbn [collapse_spaces]. cbn [single_spaced] in Hs. destruct Hs as (Hsp & Hadj & Hs).
  destruct (JS.is_white_space c) eqn:Hc.
  - destruct in_run; [cbn in Hhead; rewrite Hc in Hhead; by specialize (Hhead eq_refl) |].
    rewrite (Hsp eq_refl). f_equal. apply IH; [done |]. intros _.
    destruct s as [|c' s']; [done |]. cbn.
    destruct (JS.is_white_space c'); [exfalso; by apply Hadj | done].
  - f_equal. by apply IH.
Qed.

Lemma collapse_spaces_empty (s : string) : forall in_run,
  collapse_spaces in_run s = "" -> JS.trimEnd s = "".
Proof.
  induction s as [|c s IH]; intros in_run; [done |].
  cbn [collapse_spaces JS.trimEnd]. destruct (JS.is_white_space c) eqn:Hc.
  - destruct in_run; [| done]. intros H. by rewrite (IH true H).
  - done.
Qed.

(** Collapsing the white space of a text that does not end in white space
    gives a text that does not end in white space. *)
Lemma collapse_spaces_trimEnd (s : string) : forall in_run,
  JS.trimEnd s = s -> JS.trimEnd (collapse_spaces in_run s) = collapse_spaces in_run s.
Proof.
  induction s as [|c s IH]; intros in_run Hfix; [done |].
  rewrite trimEnd_cons in Hfix.
  assert (JS.trimEnd s = s /\ (s = "" -> JS.is_white_space c = false)) as [Hs Hc].
  { destruct (JS.trimEnd s) as [|c' t] eqn:Ht.
    - destruct (JS.is_white_space c); [done |]. by inversion Hfix.
    - inversion Hfix as [Heq]. split; [done |]. intros Hempty. by rewrite Hempty in Heq. }
  assert (forall b, s <> "" -> collapse_spaces b s <> "") as Hne.
  { intros b Hs' Hempty. apply collapse_spaces_empty in Hempty. congruence. }
  cbn [collapse_spaces]. destruct (JS.is_white_space c) eqn:Hws.
  - destruct (decide (s = "")) as [Hempty|Hfull]; [specialize (Hc Hempty); congruence |].
    destruct in_run; [by apply IH |].
    rewrite trimEnd_cons, (IH true Hs).
    specialize (Hne true Hfull). destruct (collapse_spaces true s); [congruence | done].
  - rewrite trimEnd_cons, (IH false Hs), Hws.
    by destruct (collapse_spaces false s).
Qed.

Lemma collapse_spaces_no_space (s : string) :
  (forall c, In c (list_ascii_of_string (collapse_spaces false s)) ->
             JS.is_white_space c = false) ->
  collapse_spaces false s = s.
Proof.
  induction s as [|c s IH]; [done |]. cbn [collapse_spaces].
  destruct (JS.is_white_space c) eqn:Hc; intros H.
  - specialize (H " "%char (or_introl eq_refl)). done.
  - f_equal. apply IH. intros c' Hc'. apply H. by right.
Qed.

Lemma trim_trimEnd (s : string) : JS.trimEnd (JS.trim s) = JS.trim s.
Proof. unfold JS.trim. apply trimEnd_idem. Qed.

(** The name the scraper keeps for a trimmed text: its white space
    collapsed. *)
Lemma clean_name_trimmed (u : string) :
  JS.trim u = u -> u <> "" ->
  JS.trim (collapse_spaces false u) = collapse_spaces false u.
Proof.
  intros Hu Hne.
  assert (starts_with_space u = false) as Hhead by (rewrite <- Hu; apply trim_starts).
  assert (JS.trimEnd u = u) as Hend by (rewrite <- Hu; apply trim_trimEnd).
  unfold JS.trim. rewrite trimStart_fixed.
  - by apply collapse_spaces_trimEnd.
  - destruct u as [|c u']; [done |]. cbn in *. by rewrite Hhead.
Qed.

(** What qualifies the text of a link as a name, and the name kept. *)
Lemma name_of_cell_Some (text n : string) :
  name_of_cell text = Some n ->
  JS.trim text <> "" /\ JS.trim text <> "Name" /\
  n = collapse_spaces false (JS.trim text) /\
  (2 <= String.length n)%nat.
Proof.
  unfold name_of_cell. set (u := JS.trim text).
  destruct (JS.truthy_string u && negb (u =? "Name") && (1 <? String.length u)%nat)
    eqn:Hguard; [| done].
  apply andb_true_iff in Hguard as [Hguard Hlen].
  apply andb_true_iff in Hguard as [Htruthy Hname].
  apply negb_true_iff, String.eqb_neq in Htruthy.
  apply negb_true_iff, String.eqb_neq in Hname.
  rewrite (clean_name_trimmed u (trim_idem text) Htruthy).
  destruct (JS.truthy_string _ && (1 <? String.length _)%nat) eqn:Hclean; [| done].
  apply andb_true_iff in Hclean as [_ Hlen'].
  apply Nat.ltb_lt in Hlen'. intros [= <-]. repeat split; (done || lia).
Qed.

Lemma clean_name_facts (text n : string) :
  name_of_cell text = Some n ->
  JS.trim n = n /\ single_spaced n /\ n <> "Name" /\ n <> "".
Proof.
  intros (Hne & Hname & -> & Hlen)%name_of_cell_Some.
  split; [by apply clean_name_trimmed; [apply trim_idem |] |].
  split; [apply collapse_spaces_spaced |].
  split.
  - intros Heq. apply Hname. rewrite <- Heq. symmetry.
    apply collapse_spaces_no_space. rewrite Heq.
    cbn. intros c [<-|[<-|[<-|[<-|[]]]]]; reflexivity.
  - intros Heq. rewrite Heq in Hlen. cbn in Hlen. lia.
Qed.

(** X14. A text the scraper kept as a name is kept as it is when scraped
    again: cleaning a name is idempotent. *)
Theorem name_of_cell_stable (text n : string) :
  name_of_cell text = Some n -> name_of_cell n = Some n.
Proof.
  intros H. destruct (clean_name_facts text n H) as (Htrim & Hspaced & Hname & Hne).
  apply name_of_cell_Some in H as (_ & _ & _ & Hlen).
  unfold name_of_cell. rewrite Htrim.
  assert (collapse_spaces false n = n) as Hfix by (by apply collapse_spaces_fixed).
  rewrite Hfix, Htrim.
  assert (JS.truthy_string n = true) as -> by (by apply negb_true_iff, String.eqb_neq).
  assert ((n =? "Name") = false) as -> by (by apply String.eqb_neq).
  assert ((1 <? String.length n)%nat = true) as -> by (apply Nat.ltb_lt; lia).
  reflexivity.
Qed.

Lemma name_of_cell_stable_witness :
  name_of_cell "Monkey D. Luffy" = Some "Monkey D. Luffy".
Proof. apply (name_of_cell_stable "  Monkey  D.	Luffy "). reflexivity. Defined.

Lemma first_name_of_Some (cells : list string) (n : string) :
  first_name_of cells = Some n -> exists text, text ∈ cells /\ name_of_cell text = Some n.
Proof.
  induction cells as [|text cells IH]; [done |]. cbn.
  destruct (name_of_cell text) as [n'|] eqn:Hcell.
  - intros [= <-]. exists text. split; [by left | done].
  - intros (text' & Hin & Hn)%IH. exists text'. split; [by right | done].
Qed.

(** X15. Every character the scraper yields carries the defaults (elo and
    rank 1000, no recent change, no win, no loss, empty last name and title)
    and a name of at least two code units, other than "Name", with no white
    space at either end and single spaces only inside. *)
Theorem scraped_characters_well_formed (rows : list table_row)
    (scraped : list character) (c : character) :
  scrapeOnePieceCharacters (Return rows) = Return scraped ->
  c ∈ scraped ->
  elo c = 1000%Z /\ rank c = 1000%Z /\ recent_change c = 0%Z /\
  wins c = 0%Z /\ losses c = 0%Z /\ last_name c = "" /\ title c = "" /\
  (2 <= String.length (first_name c))%nat /\ first_name c <> "Name" /\
  JS.trim (first_name c) = first_name c /\ single_spaced (first_name c).
Proof.
  intros [= <-] Hin.
  apply list_elem_of_omap in Hin as (row & _ & Hrow).
  unfold scrape_row in Hrow.
  destruct (2 <=? length (cells row))%nat; [| done].
  destruct (first_name_of _) as [n|] eqn:Hn; [| done].
  injection Hrow as <-. cbn.
  apply first_name_of_Some in Hn as (text & _ & Hn).
  destruct (clean_name_facts text n Hn) as (Htrim & Hspaced & Hname & _).
  apply name_of_cell_Some in Hn as (_ & _ & _ & Hlen).
  by repeat split.
Qed.

Lemma scraped_characters_well_formed_witness :
  elo (mkCharacter "Monkey D. Luffy" "" "" (Some "luffy.png") 1000 1000 0 0 0) = 1000%Z /\
  JS.trim "Monkey D. Luffy" = "Monkey D. Luffy".
Proof.
  destruct (scraped_characters_well_formed Sample.listing
              (omap scrape_row Sample.listing)
              (mkCharacter "Monkey D. Luffy" "" "" (Some "luffy.png") 1000 1000 0 0 0))
    as (Helo & _ & _ & _ & _ & _ & _ & _ & _ & Htrim & _).
  - reflexivity.
  - apply list_elem_of_In. vm_compute. tauto.
  - split; [exact Helo | exact Htrim].
Defined.

Lemma first_name_of_app (skipped rest : list string) :
  Forall (fun text => name_of_cell text = None) skipped ->
  first_name_of (skipped ++ rest) = first_name_of rest.
Proof.
  induction 1 as [|text skipped Htext _ IH]; [done |].
  cbn. by rewrite Htext.
Qed.

(** X16. A row gives the name of its first qualifying cell: when fewer
    than five cells that do not qualify come before a cell that does, the
    character of the row has the clean name of that cell, whatever the cells
    after it hold. *)
Theorem scrape_row_first_name (skipped rest : list string) (text n : string)
    (picture : option img) :
  Forall (fun text' => name_of_cell text' = None) skipped ->
  (length skipped < 5)%nat ->
  (2 <= length (skipped ++ text :: rest))%nat ->
  name_of_cell text = Some n ->
  first_name <$> scrape_row (mkRow (skipped ++ text :: rest) picture) = Some n.
Proof.
  intros Hskipped Hfive Hcells Hn. unfold scrape_row. cbn [cells image].
  assert ((2 <=? length (skipped ++ text :: rest))%nat = true) as ->
    by (by apply Nat.leb_le).
  rewrite take_app_ge by lia.
  rewrite (first_name_of_app skipped _ Hskipped).
  destruct (5 - length skipped)%nat as [|k] eqn:Hk; [lia |].
  cbn. by rewrite Hn.
Qed.

Lemma scrape_row_first_name_witness :
  first_name <$> scrape_row (mkRow ["?"; ""; "Roronoa Zoro"; "Nico Robin"] None)
  = Some "Roronoa Zoro".
Proof.
  apply (scrape_row_first_name ["?"; ""] ["Nico Robin"] "Roronoa Zoro" "Roronoa Zoro" None).
  - repeat constructor.
  - cbn. lia.
  - cbn. lia.
  - reflexivity.
Defined.

Lemma omap_length_le {A B : Type} (f : A -> option B) (l : list A) :
  (length (omap f l) <= length l)%nat.
Proof.
  induction l as [|x l IH]; [done |]. cbn. destruct (f x); cbn; lia.
Qed.

(** X17. The bounds of the scan: a row of fewer than two cells gives no
    character, however good its one cell; the cells after the fifth are
    never read; and the scraper yields at most one character a row. *)
Theorem scrape_row_bounds :
  (forall row, (length (cells row) < 2)%nat -> scrape_row row = None) /\
  (forall cs extra picture,
     (5 <= length cs)%nat ->
     scrape_row (mkRow (cs ++ extra) picture) = scrape_row (mkRow cs picture)) /\
  (forall rows scraped,
     scrapeOnePieceCharacters (Return rows) = Return scraped ->
     (length scraped <= length rows)%nat).
Proof.
  split; [| split].
  - intros row Hlen. unfold scrape_row.
    by assert ((2 <=? length (cells row))%nat = false) as -> by (apply Nat.leb_gt; lia).
  - intros cs extra picture Hlen. unfold scrape_row. cbn [cells image].
    rewrite take_app_le by lia.
    assert ((2 <=? length (cs ++ extra))%nat = true) as ->
      by (apply Nat.leb_le; rewrite length_app; lia).
    by assert ((2 <=? length cs)%nat = true) as -> by (apply Nat.leb_le; lia).
  - intros rows scraped [= <-]. apply omap_length_le.
Qed.

Lemma scrape_row_bounds_witness :
  scrape_row (mkRow ["Nami"] None) = None /\
  scrape_row (mkRow (["1"; "2"; "3"; "4"; "5"] ++ ["Nami"]) None)
  = scrape_row (mkRow ["1"; "2"; "3"; "4"; "5"] None).
Proof.
  destruct scrape_row_bounds as (Hfew & Hfive & _). split.
  - apply Hfew. cbn. lia.
  - apply Hfive. cbn. lia.
Defined.

(** ** ImageBackfiller: what a batch does to the roster *)

(** X18. The image URL [scrapeCharacterImage] returns is never empty: it
    is the src of the first thumbnail of the page when that is not empty,
    and its data-src otherwise. *)
Theorem scrapeCharacterImage_url (wiki : string -> page_result)
    (characterName imageUrl : string) :
  scrapeCharacterImage wiki characterName = Some imageUrl ->
  imageUrl <> "" /\
  exists thumbnail,
    wiki characterName = Page (Some thumbnail) /\
    (src thumbnail = Some imageUrl \/
     ((src thumbnail = None \/ src thumbnail = Some "") /\
      data_src thumbnail = Some imageUrl)).
Proof.
  unfold scrapeCharacterImage.
  destruct (wiki characterName) as [message|[[s d]|]]; [done | | done].
  cbn [src data_src]. unfold JS.or_string, JS.truthy_string.
  destruct s as [s|].
  - destruct (String.eqb_spec s "") as [->|Hs]; cbn [negb].
    + destruct d as [d|]; [| done].
      destruct (String.eqb_spec d "") as [->|Hd]; cbn [negb]; [done |].
      intros [= <-]. split; [done |]. eexists. split; [done |]. right. cbn. auto.
    + destruct (String.eqb_spec s "") as [->|_]; cbn [negb]; [done |].
      intros [= <-]. split; [done |]. eexists. split; [done |]. left. done.
  - destruct d as [d|]; [| done].
    destruct (String.eqb_spec d "") as [->|Hd]; cbn [negb]; [done |].
    intros [= <-]. split; [done |]. eexists. split; [done |]. right. cbn. auto.
Qed.

Lemma scrapeCharacterImage_url_witness :
  "https://static.wikia.nocookie.net/zoro.png" <> "".
Proof.
  exact (proj1 (scrapeCharacterImage_url Sample.wiki "Roronoa Zoro"
                  "https://static.wikia.nocookie.net/zoro.png" eq_refl)).
Defined.

(** What the loop body does to the table: nothing, or the image of its
    row. *)
Lemma row_effect_characters wiki p row :
  characters (row_effect wiki p row) = characters p \/
  exists imageUrl,
    scrapeCharacterImage wiki (first_name row.2) = Some imageUrl /\
    refuses p (UpdateImagePath imageUrl row.1) = false /\
    characters (row_effect wiki p row)
      = alter (set_image_path imageUrl) row.1 (characters p).
Proof.
  unfold row_effect.
  destruct (scrapeCharacterImage wiki (first_name row.2)) as [imageUrl|]; [| by left].
  unfold pool_query. cbn [refuses logged well_typed negb]. rewrite orb_false_r.
  destruct (refuses p (UpdateImagePath imageUrl row.1)) eqn:Href; [by left |].
  right. by exists imageUrl.
Qed.

Lemma backfilled_refl wiki (t : gmap string character) : backfilled wiki t t.
Proof.
  intros id. destruct (t !! id) as [c|]; [| done].
  exists c. split; [done |]. split; [by repeat split | by left].
Qed.

Lemma backfilled_row wiki (t0 : gmap string character) p row :
  t0 !! row.1 = Some row.2 ->
  backfilled wiki t0 (characters p) ->
  backfilled wiki t0 (characters (row_effect wiki p row)).
Proof.
  intros Hrow Hinv.
  destruct (row_effect_characters wiki p row) as [->|(imageUrl & Himg & _ & ->)]; [done |].
  intros id. specialize (Hinv id). rewrite lookup_alter.
  destruct (decide (row.1 = id)) as [<-|Hne]; [| done].
  rewrite Hrow in *. destruct Hinv as (c' & -> & Hsame & _).
  exists (set_image_path imageUrl c'). split; [done |]. split; [exact Hsame |].
  right. exists imageUrl. split; [done |]. split; [| done].
  by apply (scrapeCharacterImage_url wiki (first_name row.2)).
Qed.

Lemma backfilled_rows wiki (t0 : gmap string character) rows : forall p,
  Forall (fun row => t0 !! row.1 = Some row.2) rows ->
  backfilled wiki t0 (characters p) ->
  backfilled wiki t0 (characters (foldl (row_effect wiki) p rows)).
Proof.
  induction rows as [|row rows IH]; intros p Hrows Hinv; [done |].
  apply Forall_cons in Hrows as [Hrow Hrows].
  cbn [foldl]. apply IH; [done |]. by apply backfilled_row.
Qed.

Lemma roster_rows_table p :
  Forall (fun row => characters p !! row.1 = Some row.2) (roster_rows p).
Proof.
  apply Forall_forall. intros [id c] Hin. by apply elem_of_roster_rows.
Qed.

(** X19. A backfill, whatever the wiki and the storage do, never adds or
    removes a record and changes nothing but image_path; an image_path it
    changes is set to the non-empty URL scraped from the page of the record's
    name, never cleared. *)
Theorem backfill_frame wiki p delay :
  backfilled wiki (characters p) (characters (Scraper.updateCharacterImages wiki p delay).1.2).
Proof.
  destruct (refuses p SelectCharactersByFirstName) eqn:Hacc.
  - rewrite (updateCharacterImages_refused wiki p delay Hacc). apply backfilled_refl.
  - rewrite (updateCharacterImages_eq wiki p delay Hacc). cbn [fst snd].
    apply (backfilled_rows wiki (characters p) (roster_rows p)
             (logged SelectCharactersByFirstName p)).
    + apply roster_rows_table.
    + apply backfilled_refl.
Qed.

Lemma roster_rows_NoDup p : NoDup (roster_rows p).*1.
Proof.
  unfold roster_rows. rewrite merge_sort_Permutation. apply NoDup_fst_map_to_list.
Qed.

(** X20. An entity for which an image is found and whose UPDATE the storage
    accepts ends the batch with that image as its image_path and its other
    columns as they were. *)
Theorem backfill_updated wiki p delay id c imageUrl :
  refuses p SelectCharactersByFirstName = false ->
  characters p !! id = Some c ->
  scrapeCharacterImage wiki (first_name c) = Some imageUrl ->
  refuses p (UpdateImagePath imageUrl id) = false ->
  classify wiki (refuses p) (id, c) = Updated /\
  characters (Scraper.updateCharacterImages wiki p delay).1.2 !! id
    = Some (set_image_path imageUrl c).
Proof.
  intros Hacc Hc Himg Hupd.
  split; [unfold classify; cbn [fst snd]; by rewrite Himg, Hupd |].
  rewrite (updateCharacterImages_eq wiki p delay Hacc). cbn [fst snd].
  assert ((id, c) ∈ roster_rows p) as Hin by (by apply elem_of_roster_rows).
  pose proof (roster_rows_NoDup p) as Hnd.
  apply list_elem_of_split in Hin as (l1 & l2 & Hsplit). rewrite Hsplit in *.
  rewrite fmap_app, fmap_cons in Hnd. cbn [fst] in Hnd.
  apply NoDup_app in Hnd as (_ & Hl1 & Hnd). apply NoDup_cons in Hnd as [Hl2 _].
  rewrite foldl_app. cbn [foldl].
  rewrite backfill_lookup.
  2:{ intros row Hrow Hid. exfalso. apply Hl2. rewrite <- Hid.
      by apply list_elem_of_fmap_2. }
  unfold row_effect at 1. cbn [fst snd]. rewrite Himg.
  rewrite pool_query_accepted; [| by rewrite backfill_refuses | done].
  cbn [run_statement fst snd with_characters logged characters].
  rewrite lookup_alter, decide_True by done.
  rewrite backfill_lookup; [cbn [logged characters]; by rewrite Hc |].
  intros row Hrow Hid. exfalso. apply (Hl1 id); [| by left].
  rewrite <- Hid. by apply list_elem_of_fmap_2.
Qed.

Lemma backfill_updated_witness :
  characters (Scraper.updateCharacterImages Sample.wiki Sample.roster (Some 0%Z)).1.2 !! "b2"
  = Some (set_image_path "https://static.wikia.nocookie.net/zoro.png" Sample.zoro).
Proof.
  exact (proj2 (backfill_updated Sample.wiki Sample.roster (Some 0%Z) "b2" Sample.zoro
                  "https://static.wikia.nocookie.net/zoro.png"
                  eq_refl eq_refl eq_refl eq_refl)).
Defined.

Lemma omap_cons {A B : Type} (f : A -> option B) (x : A) (l : list A) :
  omap f (x :: l) = match f x with Some y => y :: omap f l | None => omap f l end.
Proof. reflexivity. Qed.

Lemma row_effect_log wiki p row :
  log (row_effect wiki p row) = log p ++ option_list (image_update wiki row).
Proof.
  unfold row_effect, image_update.
  destruct (scrapeCharacterImage wiki (first_name row.2)) as [imageUrl|]; cbn.
  - unfold pool_query. cbn [refuses logged]. by destruct (_ || _).
  - by rewrite app_nil_r.
Qed.

Lemma backfill_log wiki rows : forall p,
  log (foldl (row_effect wiki) p rows) = log p ++ omap (image_update wiki) rows.
Proof.
  induction rows as [|row rows IH]; intros p; [by rewrite app_nil_r |].
  cbn [foldl]. rewrite IH, row_effect_log, <- app_assoc, omap_cons. f_equal.
  by destruct (image_update wiki row).
Qed.

Lemma classified_not_skipped wiki refused rows :
  (classified wiki refused Updated rows + classified wiki refused Failed rows)%Z
  = Z.of_nat (length (omap (image_update wiki) rows)).
Proof.
  induction rows as [|row rows IH]; [done |].
  rewrite !classified_cons, omap_cons.
  unfold image_update at 1, classify.
  destruct (scrapeCharacterImage wiki (first_name row.2)) as [imageUrl|];
    cbn [fmap option_fmap option_map].
  - destruct (refused (UpdateImagePath imageUrl row.1));
      repeat case_decide; try done; cbn [length]; lia.
  - repeat case_decide; try done; lia.
Qed.

(** X21. A completed backfill has sent the SELECT and then, in the order
    of the rows, one UPDATE for each entity for which an image was found, and
    no other statement; the updated and failed counts together are the
    number of these UPDATEs. *)
Theorem backfill_statements wiki p delay s p' events :
  Scraper.updateCharacterImages wiki p delay = (Return s, p', events) ->
  log p' = log p ++ SelectCharactersByFirstName
                    :: omap (image_update wiki) (roster_rows p) /\
  (updated s + failed s)%Z
    = Z.of_nat (length (omap (image_update wiki) (roster_rows p))).
Proof.
  intros Hrun.
  destruct (refuses p SelectCharactersByFirstName) eqn:Hacc.
  { by rewrite (updateCharacterImages_refused wiki p delay Hacc) in Hrun. }
  rewrite (updateCharacterImages_eq wiki p delay Hacc) in Hrun.
  injection Hrun as <- <- <-. cbn [updated failed]. split.
  - rewrite backfill_log. cbn [log logged]. by rewrite <- app_assoc.
  - apply classified_not_skipped.
Qed.

Lemma backfill_statements_witness :
  log (Scraper.updateCharacterImages Sample.wiki Sample.roster (Some 0%Z)).1.2
  = [SelectCharactersByFirstName;
     UpdateImagePath "https://static.wikia.nocookie.net/zoro.png" "b2"].
Proof.
  exact (proj1 (backfill_statements Sample.wiki Sample.roster (Some 0%Z)
                  {| total := 2; updated := 1; skipped := 1; failed := 0 |}
                  (Scraper.updateCharacterImages Sample.wiki Sample.roster (Some 0%Z)).1.2
                  (Scraper.updateCharacterImages Sample.wiki Sample.roster (Some 0%Z)).2
                  eq_refl)).
Defined.

(** X22. POST /update-character-images answers 500, with nothing fetched
    and the table as it was, when the storage refuses the SELECT; otherwise
    it answers 200, having waited before each fetch the delay of the query
    string when that is positive, and not at all when it is negative. *)
Theorem updateCharacterImages_route wiki query p :
  (refuses p SelectCharactersByFirstName = true ->
     status (Index.updateCharacterImages wiki query p).1.1 = 500%Z /\
     (Index.updateCharacterImages wiki query p).2 = [] /\
     characters (Index.updateCharacterImages wiki query p).1.2 = characters p) /\
  (refuses p SelectCharactersByFirstName = false ->
     status (Index.updateCharacterImages wiki query p).1.1 = 200%Z /\
     waits (Index.updateCharacterImages wiki query p).2
       = if (delay_of_query query >? 0)%Z
         then replicate (size (characters p)) (delay_of_query query) else []).
Proof.
  unfold Index.updateCharacterImages, DatabaseTools.updateCharacterImagesFromPages.
  cbn [default]. split; intros Hacc.
  - by rewrite (updateCharacterImages_refused wiki p _ Hacc).
  - rewrite (updateCharacterImages_eq wiki p _ Hacc). cbn [fst snd status default].
    split; [done |]. by rewrite row_events_waits, roster_rows_length.
Qed.

Lemma updateCharacterImages_route_witness :
  waits (Index.updateCharacterImages Sample.wiki (Some "-1") Sample.roster).2 = [] /\
  waits (Index.updateCharacterImages Sample.wiki (Some " 250ms") Sample.roster).2
    = [250; 250]%Z.
Proof.
  split.
  - exact (proj2 (proj2 (updateCharacterImages_route Sample.wiki (Some "-1") Sample.roster)
                    eq_refl)).
  - exact (proj2 (proj2 (updateCharacterImages_route Sample.wiki (Some " 250ms")
                           Sample.roster) eq_refl)).
Defined.

(** ** Reading back *)

(** X23. Read your write: after updateCharacterElo has answered 200 to a
    valid request, GET /characters/:id with the same id returns exactly one
    row, the record of that answer. *)
Theorem getCharacterById_after_update id body p w l e r c :
  supplies body w l e r -> ~ blank id ->
  refuses p (UpdateElo w l e (calculateChange e r) id) = false ->
  characters p !! id = Some c ->
  exists c',
    (updateCharacterElo id body p).1
      = mkResponse 200 [("message", JsonString "Character ELO updated successfully");
                        ("character", JsonCharacter id c')] /\
    getCharacterById false id (updateCharacterElo id body p).2 = AnswerRows 200 [(id, c')].
Proof.
  intros Hs Hid Href Hc.
  rewrite (updateCharacterElo_applied id body p w l e r Hs Hid Href), Hc.
  eexists. split; [done |].
  unfold getCharacterById. rewrite (id_check_passes id Hid).
  cbn [fst snd characters]. unfold returning.
  by rewrite lookup_alter, decide_True, Hc by done.
Qed.

Lemma getCharacterById_after_update_witness :
  exists c',
    getCharacterById false "a1" (updateCharacterElo "a1" Sample.deltas Sample.roster).2
    = AnswerRows 200 [("a1", c')] /\ wins c' = 1%Z.
Proof.
  destruct (getCharacterById_after_update "a1" Sample.deltas Sample.roster 1 0 16 5
              Sample.luffy supplies_sample not_blank_a1 eq_refl eq_refl)
    as (c' & Hput & Hget).
  exists c'. split; [exact Hget |].
  injection Hput as <-. reflexivity.
Defined.


